(** * Grid-world MDP solvers: value iteration and policy iteration

    A shallow embedding of [Maze.py], [MarkovDecisionProcess.py] and
    [Algorithms.py].

    Modelling conventions.
    - Numbers come in two embeddings.  In the first, Python numbers are
      idealised as rationals ([Q]); equality of numbers is [Qeq] ([==]);
      [float('-inf')], the initial bound of the arg-max loops, is modelled
      by [None] in an [option Q], and a result that would be infinite is
      reported as the outcome [NonFinite].  It carries the properties that
      do not depend on rounding.  In the second, the module [Binary64],
      numbers are binary64 floats as in Python, with rounding, overflow,
      infinities and nan; it carries the properties that do.
    - Python dictionaries keep insertion order and the solvers iterate over
      them, so a dictionary is an association list with unique keys;
      [d[k]] on a missing key raises [KeyError], [d.get(k)] gives [None].
    - Exceptions are explicit: every fallible function returns a [Result].
    - The [while] loops take a fuel argument; [OutOfFuel] is returned when
      the loop has not stopped after that many rounds. *)

From Stdlib Require Import List ZArith QArith Qabs Lia Lqa Bool Floats.
Import ListNotations.

Set Implicit Arguments.

(* ------------------------------------------------------------------ *)
(** ** Results and exceptions *)

Inductive Exn : Type :=
| KeyError
| IndexError
| TypeError
| ZeroDivisionError
| NonFinite.

Inductive Result (A : Type) : Type :=
| Ok (a : A)
| Raise (e : Exn)
| OutOfFuel.

Arguments Ok {A} a.
Arguments Raise {A} e.
Arguments OutOfFuel {A}.

Definition bind {A B} (m : Result A) (f : A -> Result B) : Result B :=
  match m with
  | Ok a => f a
  | Raise e => Raise e
  | OutOfFuel => OutOfFuel
  end.

Notation "x <- m ;; k" := (bind m (fun x => k))
  (at level 61, m at next level, right associativity).
Notation "' p <- m ;; k" := (bind m (fun x => match x with p => k end))
  (at level 61, p pattern, m at next level, right associativity).

(** [for x in l: s = f(s, x)] with exceptions. *)
Fixpoint foldM {A S} (f : S -> A -> Result S) (l : list A) (s : S) : Result S :=
  match l with
  | [] => Ok s
  | x :: l' => s' <- f s x ;; foldM f l' s'
  end.

(* ------------------------------------------------------------------ *)
(** ** Python containers *)

Class EqKey (K : Type) : Type := {
  keqb : K -> K -> bool;
  keqb_eq : forall x y, keqb x y = true <-> x = y
}.

Section Dict.
Context {K V : Type} `{EqKey K}.

Definition dict := list (K * V).

  (** [d.get(k)] *)
Fixpoint dict_get_opt (d : dict) (k : K) : option V :=
    match d with
    | [] => None
    | (k', v) :: d' => if keqb k' k then Some v else dict_get_opt d' k
    end.

  (** [d[k]] *)
Definition dict_get (d : dict) (k : K) : Result V :=
    match dict_get_opt d k with
    | Some v => Ok v
    | None => Raise KeyError
    end.

  (** [d[k] = v]: an existing key keeps its position, a new key goes last. *)
Fixpoint dict_set (d : dict) (k : K) (v : V) : dict :=
    match d with
    | [] => [(k, v)]
    | (k', v') :: d' =>
        if keqb k' k then (k', v) :: d' else (k', v') :: dict_set d' k v
    end.

  (** [for k in d] *)
Definition dict_keys (d : dict) : list K := map fst d.

  (** [d1.update(d2)] *)
Definition dict_update (d1 d2 : dict) : dict :=
    fold_left (fun d kv => dict_set d (fst kv) (snd kv)) d2 d1.
End Dict.

Arguments dict K V : clear implicits.

(** [len(l)] *)
Definition len {A} (l : list A) : Z := Z.of_nat (length l).

(** [l[i]]: negative indices count from the end. *)
Definition py_index {A} (l : list A) (i : Z) : Result A :=
  let j := if (i <? 0)%Z then (len l + i)%Z else i in
  if (j <? 0)%Z then Raise IndexError
  else match nth_error l (Z.to_nat j) with
       | Some x => Ok x
       | None => Raise IndexError
       end.

(** [range(n)] *)
Definition py_range (n : Z) : list Z := map Z.of_nat (seq 0 (Z.to_nat n)).

(** Comparisons and [max] on numbers. *)
Definition Qltb (x y : Q) : bool := negb (Qle_bool y x).

(** [max(a, b)] returns [a] unless [b > a]. *)
Definition py_max (a b : Q) : Q := if Qltb a b then b else a.

(* ------------------------------------------------------------------ *)
(** ** Maze.py *)

Inductive MazeActions : Type := UP | DOWN | LEFT | RIGHT.

(** The value of each enum member: a (row, col) displacement. *)
Definition action_value (a : MazeActions) : Z * Z :=
  match a with
  | UP => (-1, 0)
  | DOWN => (1, 0)
  | LEFT => (0, -1)
  | RIGHT => (0, 1)
  end%Z.

(** [for action in MazeActions] *)
Definition all_MazeActions : list MazeActions := [UP; DOWN; LEFT; RIGHT].

Definition MazeActions_eqb (a b : MazeActions) : bool :=
  match a, b with
  | UP, UP | DOWN, DOWN | LEFT, LEFT | RIGHT, RIGHT => true
  | _, _ => false
  end.

#[export] Instance MazeActions_EqKey : EqKey MazeActions.
Proof.
  refine {| keqb := MazeActions_eqb |}.
  intros [] []; simpl; split; congruence.
Defined.

(** A state is a coordinate pair [(row, col)]. *)
Definition State : Type := (Z * Z)%type.

Definition State_eqb (s t : State) : bool :=
  (fst s =? fst t)%Z && (snd s =? snd t)%Z.

#[export] Instance State_EqKey : EqKey State.
Proof.
  refine {| keqb := State_eqb |}.
  intros [a b] [c d]; unfold State_eqb; simpl.
  rewrite andb_true_iff, !Z.eqb_eq. split.
  - intros [-> ->]; reflexivity.
  - intros E; inversion E; auto.
Defined.

(** A cell of the environment: a reward, or [None] for a wall ([W]). *)
Definition Cell : Type := option Q.
Definition Env : Type := list (list Cell).

(** [{"next_state": ..., "probability": ...}] *)
Record Outcome : Type := mkOutcome {
  next_state : State;
  probability : Q
}.

Definition OutcomeMap : Type := dict MazeActions Outcome.
Definition ActionMap : Type := dict MazeActions OutcomeMap.
Definition StateTable : Type := dict State ActionMap.

(** [Maze.is_wall]; the disjunction is evaluated left to right. *)
Definition is_wall (environment : Env) (state : State) : Result bool :=
  if (fst state <? 0)%Z then Ok true
  else if (fst state >=? len environment)%Z then Ok true
  else if (snd state <? 0)%Z then Ok true
  else
    row0 <- py_index environment 0 ;;
    if (snd state >=? len row0)%Z then Ok true
    else
      row <- py_index environment (fst state) ;;
      cell <- py_index row (snd state) ;;
      Ok (match cell with None => true | Some _ => false end).

(** [Maze.get_next_state_probabilities] *)
Definition get_next_state_probabilities (environment : Env) (state : State)
    (action : MazeActions) : Result OutcomeMap :=
  let up_state := (fst state - 1, snd state)%Z in
  w <- is_wall environment up_state ;;
  let up_state := if w then state else up_state in
  let down_state := (fst state + 1, snd state)%Z in
  w <- is_wall environment down_state ;;
  let down_state := if w then state else down_state in
  let left_state := (fst state, snd state - 1)%Z in
  w <- is_wall environment left_state ;;
  let left_state := if w then state else left_state in
  let right_state := (fst state, snd state + 1)%Z in
  w <- is_wall environment right_state ;;
  let right_state := if w then state else right_state in
  Ok (match action with
      | UP =>
          [ (UP, mkOutcome up_state (8 # 10));
            (LEFT, mkOutcome left_state (1 # 10));
            (RIGHT, mkOutcome right_state (1 # 10)) ]
      | DOWN =>
          [ (DOWN, mkOutcome down_state (8 # 10));
            (LEFT, mkOutcome left_state (1 # 10));
            (RIGHT, mkOutcome right_state (1 # 10)) ]
      | LEFT =>
          [ (LEFT, mkOutcome left_state (8 # 10));
            (UP, mkOutcome up_state (1 # 10));
            (DOWN, mkOutcome down_state (1 # 10)) ]
      | RIGHT =>
          [ (RIGHT, mkOutcome right_state (8 # 10));
            (UP, mkOutcome up_state (1 # 10));
            (DOWN, mkOutcome down_state (1 # 10)) ]
      end).

(** [Maze.build_action_next_state_map] *)
Definition build_action_next_state_map (environment : Env) (state : State)
    : Result ActionMap :=
  foldM (fun (d : ActionMap) action =>
           m <- get_next_state_probabilities environment state action ;;
           Ok (dict_set d action m))
        all_MazeActions [].

(** The dictionary comprehension of [Maze.__init__]: every cell of the
    [len(environment)] x [len(environment[0])] rectangle that is not a wall,
    in row-major order, mapped to an empty dictionary.
    [add_cell] is the innermost step, [add_row] the loop over the columns. *)
Definition add_cell (environment : Env) (row : Z) (d : StateTable) (col : Z)
    : Result StateTable :=
  w <- is_wall environment (row, col) ;;
  Ok (if w then d else dict_set d (row, col) []).

Definition add_row (environment : Env) (d : StateTable) (row : Z)
    : Result StateTable :=
  row0 <- py_index environment 0 ;;
  foldM (add_cell environment row) (py_range (len row0)) d.

Definition init_states (environment : Env) : Result StateTable :=
  foldM (add_row environment) (py_range (len environment)) [].

Record Maze : Type := mkMaze {
  environment : Env;
  maze_start_state : State;
  maze_states : StateTable;
  maze_actions : list MazeActions;
  maze_discount_factor : Q
}.

(** [Maze.__init__] *)
Definition Maze_init (environment : Env) (start_state : State)
    (discount_factor : Q) : Result Maze :=
  states <- init_states environment ;;
  states <- foldM (fun (d : StateTable) state =>
                     m <- build_action_next_state_map environment state ;;
                     Ok (dict_set d state m))
                  (dict_keys states) states ;;
  Ok (mkMaze environment start_state states all_MazeActions discount_factor).

(** [Maze.transition_model] *)
Definition Maze_transition_model (self : Maze) (current_state : State)
    (intended_action actual_action : MazeActions) : Result Q :=
  action_map <- dict_get (maze_states self) current_state ;;
  next_state_probability_map <- dict_get action_map intended_action ;;
  match dict_get_opt next_state_probability_map actual_action with
  | Some next_state_probability => Ok (probability next_state_probability)
  | None => Ok 0
  end.

(** [Maze.reward_function]: the stored cell, whatever it is. *)
Definition Maze_reward_function (self : Maze) (state : State) : Result Cell :=
  row <- py_index (environment self) (fst state) ;;
  py_index row (snd state).

(* ------------------------------------------------------------------ *)
(** ** MarkovDecisionProcess.py *)

(** What the solvers use of an MDP object: the attributes [states],
    [actions], [discount_factor], [start_state], and the two methods. *)
Record MarkovDecisionProcess : Type := mkMDP {
  states : StateTable;
  actions : list MazeActions;
  discount_factor : Q;
  start_state : State;
  transition_model : State -> MazeActions -> MazeActions -> Result Q;
  reward_function : State -> Result Cell
}.

(** A [Maze] instance seen through the base class. *)
Definition Maze_as_mdp (self : Maze) : MarkovDecisionProcess :=
  mkMDP (maze_states self) (maze_actions self) (maze_discount_factor self)
        (maze_start_state self)
        (Maze_transition_model self) (Maze_reward_function self).

(* ------------------------------------------------------------------ *)
(** ** Algorithms.py *)

Definition Utilities : Type := dict State Q.
Definition Policy : Type := dict State (option MazeActions).
Definition History : Type := dict State (list Q).

(** The dictionary returned by both solvers. *)
Record SolverResult : Type := mkSolverResult {
  converged_utilities : Utilities;
  optimal_policy : Policy;
  num_iterations : Z;
  iteration_utilities : History
}.

(** [x / y] *)
Definition py_div (x y : Q) : Result Q :=
  if Qeq_bool y 0 then Raise ZeroDivisionError else Ok (x / y).

(** [get_expected_utility], over exact rationals: the products are added
    without rounding ([Binary64.get_expected_utility] adds floats). *)
Definition get_expected_utility (mdp : MarkovDecisionProcess)
    (current_state : State) (intended_action : MazeActions)
    (utilities : Utilities) : Result Q :=
  action_map <- dict_get (states mdp) current_state ;;
  stochastic_next_states <- dict_get action_map intended_action ;;
  foldM (fun expected_utility (kv : MazeActions * Outcome) =>
           let (stochastic_next_state, outcome) := kv in
           next_state_utility <- dict_get utilities (next_state outcome) ;;
           p <- transition_model mdp current_state intended_action
                                 stochastic_next_state ;;
           Ok (expected_utility + p * next_state_utility))
        stochastic_next_states 0.

(** [get_expected_utility(mdp, state, policy[state], utilities)] when the
    policy entry may be the [None] placeholder: [None] is not a key of the
    per-state action map. *)
Definition get_expected_utility_of (mdp : MarkovDecisionProcess)
    (current_state : State) (intended_action : option MazeActions)
    (utilities : Utilities) : Result Q :=
  match intended_action with
  | Some a => get_expected_utility mdp current_state a utilities
  | None => Raise KeyError
  end.

(** [expected_utility > max_expected_utility], where [None] is
    [float('-inf')]. *)
Definition exceeds (expected_utility : Q) (max_expected_utility : option Q)
    : bool :=
  match max_expected_utility with
  | None => true
  | Some m => Qltb m expected_utility
  end.

(** The arg-max loop shared by [bellman_equation] and [policy_improvement]:
    [max_expected_utility = float('-inf'); best_action = None;
     for action in action_next_state_map: ...]. *)
Definition best_action_loop (mdp : MarkovDecisionProcess) (state : State)
    (utilities : Utilities) (action_next_state_map : ActionMap)
    : Result (option Q * option MazeActions) :=
  foldM (fun (acc : option Q * option MazeActions) action =>
           let (max_expected_utility, best_action) := acc in
           expected_utility <-
             get_expected_utility mdp state action utilities ;;
           Ok (if exceeds expected_utility max_expected_utility
               then (Some expected_utility, Some action)
               else (max_expected_utility, best_action)))
        (dict_keys action_next_state_map) (None, None).

(** [bellman_equation], over exact rationals, where every expected utility
    exceeds the initial bound: a maximum that is still -inf after the loop
    (no action at all) has no rational value and is reported as
    [NonFinite]; [Binary64.bellman_equation] returns the float the source
    returns, with the action [None]. *)
Definition bellman_equation (mdp : MarkovDecisionProcess)
    (current_state : State) (current_utilities : Utilities)
    : Result (Q * option MazeActions) :=
  action_next_state_map <- dict_get (states mdp) current_state ;;
  current_state_reward <- reward_function mdp current_state ;;
  '(max_expected_utility, best_action) <-
     best_action_loop mdp current_state current_utilities
                      action_next_state_map ;;
  match current_state_reward, max_expected_utility with
  | None, _ => Raise TypeError
  | Some r, None => Raise NonFinite
  | Some r, Some m => Ok (r + discount_factor mdp * m, best_action)
  end.

(** *** value_iteration *)

(** The local variables of [value_iteration]. *)
Record VIState : Type := mkVIState {
  vi_current_utilities : Utilities;
  vi_new_utilities : Utilities;
  vi_all_iteration_utilities : History;
  vi_optimal_policy : Policy
}.

(** Lines 28-42. *)
Definition vi_init (mdp : MarkovDecisionProcess) : VIState :=
  fold_left (fun st state =>
               mkVIState (vi_current_utilities st)
                         (dict_set (vi_new_utilities st) state 0)
                         (dict_set (vi_all_iteration_utilities st) state [])
                         (dict_set (vi_optimal_policy st) state None))
            (dict_keys (states mdp))
            (mkVIState [] [] [] []).

(** One execution of the loop body, lines 45-61: the state of the local
    variables after it, and the residual [max_utility_difference]. *)
Definition vi_sweep (mdp : MarkovDecisionProcess) (st : VIState)
    : Result (VIState * Q) :=
  let current_utilities :=
    dict_update (vi_current_utilities st) (vi_new_utilities st) in
  all_iteration_utilities <-
    foldM (fun (h : History) state =>
             l <- dict_get h state ;;
             u <- dict_get current_utilities state ;;
             Ok (dict_set h state (l ++ [u])))
          (dict_keys (states mdp)) (vi_all_iteration_utilities st) ;;
  '(new_utilities, optimal_policy, max_utility_difference) <-
    foldM (fun (acc : Utilities * Policy * Q) state =>
             let '(new_utilities, optimal_policy, max_utility_difference) :=
               acc in
             '(updated_utility, best_action) <-
               bellman_equation mdp state current_utilities ;;
             let new_utilities := dict_set new_utilities state updated_utility in
             let optimal_policy := dict_set optimal_policy state best_action in
             nu <- dict_get new_utilities state ;;
             cu <- dict_get current_utilities state ;;
             Ok (new_utilities, optimal_policy,
                 py_max max_utility_difference (Qabs (nu - cu))))
          (dict_keys (states mdp))
          (vi_new_utilities st, vi_optimal_policy st, 0) ;;
  Ok (mkVIState current_utilities new_utilities all_iteration_utilities
                optimal_policy,
      max_utility_difference).

(** [max_error * (1 - mdp.discount_factor) / mdp.discount_factor], the exact
    quotient ([Binary64.stopping_threshold] is the rounded one). *)
Definition stopping_threshold (mdp : MarkovDecisionProcess) (max_error : Q)
    : Result Q :=
  py_div (max_error * (1 - discount_factor mdp)) (discount_factor mdp).

(** [while True: ... if (...): break], lines 44-65. *)
Fixpoint vi_loop (fuel : nat) (mdp : MarkovDecisionProcess) (max_error : Q)
    (st : VIState) : Result VIState :=
  match fuel with
  | O => OutOfFuel
  | S fuel' =>
      '(st', max_utility_difference) <- vi_sweep mdp st ;;
      threshold <- stopping_threshold mdp max_error ;;
      if Qltb max_utility_difference threshold then Ok st'
      else vi_loop fuel' mdp max_error st'
  end.

(** [len(all_iteration_utilities.get(mdp.start_state))] *)
Definition history_length (mdp : MarkovDecisionProcess) (h : History)
    : Result Z :=
  match dict_get_opt h (start_state mdp) with
  | Some l => Ok (len l)
  | None => Raise TypeError
  end.

Definition value_iteration (fuel : nat) (mdp : MarkovDecisionProcess)
    (max_error : Q) : Result SolverResult :=
  st <- vi_loop fuel mdp max_error (vi_init mdp) ;;
  n <- history_length mdp (vi_all_iteration_utilities st) ;;
  Ok (mkSolverResult (vi_current_utilities st) (vi_optimal_policy st) n
                     (vi_all_iteration_utilities st)).

(** *** policy_iteration *)

(** [policy_evaluation] *)
Definition policy_evaluation (mdp : MarkovDecisionProcess) (policy : Policy)
    (utilities : Utilities) (num_policy_evaluation : Z)
    : Result (Utilities * History) :=
  '(current_utilities, new_iteration_utilities) <-
    foldM (fun (acc : Utilities * History) state =>
             let (current_utilities, new_iteration_utilities) := acc in
             u <- dict_get utilities state ;;
             Ok (dict_set current_utilities state u,
                 dict_set new_iteration_utilities state []))
          (dict_keys (states mdp)) ([], []) ;;
  '(current_utilities, _, new_iteration_utilities) <-
    foldM (fun (acc : Utilities * Utilities * History) (i : Z) =>
             let '(current_utilities, updated_utilities,
                   new_iteration_utilities) := acc in
             updated_utilities <-
               foldM (fun (updated_utilities : Utilities) state =>
                        current_state_reward <- reward_function mdp state ;;
                        a <- dict_get policy state ;;
                        expected_utility <-
                          get_expected_utility_of mdp state a
                                                  current_utilities ;;
                        match current_state_reward with
                        | None => Raise TypeError
                        | Some r =>
                            Ok (dict_set updated_utilities state
                                  (r + discount_factor mdp * expected_utility))
                        end)
                     (dict_keys (states mdp)) updated_utilities ;;
             '(current_utilities, new_iteration_utilities) <-
               foldM (fun (acc : Utilities * History) state =>
                        let (current_utilities, new_iteration_utilities) :=
                          acc in
                        u <- dict_get updated_utilities state ;;
                        let current_utilities :=
                          dict_set current_utilities state u in
                        l <- dict_get new_iteration_utilities state ;;
                        cu <- dict_get current_utilities state ;;
                        Ok (current_utilities,
                            dict_set new_iteration_utilities state
                                     (l ++ [cu])))
                     (dict_keys (states mdp))
                     (current_utilities, new_iteration_utilities) ;;
             Ok (current_utilities, updated_utilities,
                 new_iteration_utilities))
          (py_range num_policy_evaluation)
          (current_utilities, [], new_iteration_utilities) ;;
  Ok (current_utilities, new_iteration_utilities).

(** [max_expected_utility > current_expected_utility] *)
Definition improves (max_expected_utility : option Q)
    (current_expected_utility : Q) : bool :=
  match max_expected_utility with
  | None => false
  | Some m => Qltb current_expected_utility m
  end.

(** [policy_improvement] *)
Definition policy_improvement (mdp : MarkovDecisionProcess) (policy : Policy)
    (utilities : Utilities) : Result (Policy * bool) :=
  foldM (fun (acc : Policy * bool) state =>
           let (improved_policy, hasChanged) := acc in
           action_next_state_map <- dict_get (states mdp) state ;;
           '(max_expected_utility, best_action) <-
             best_action_loop mdp state utilities action_next_state_map ;;
           a <- dict_get policy state ;;
           current_expected_utility <-
             get_expected_utility_of mdp state a utilities ;;
           if improves max_expected_utility current_expected_utility
           then Ok (dict_set improved_policy state best_action, true)
           else
             a <- dict_get policy state ;;
             Ok (dict_set improved_policy state a, hasChanged))
        (dict_keys (states mdp)) ([], false).

(** The local variables of [policy_iteration]; [pi_num_iterations] is the
    local counter [num_iterations] of line 111. *)
Record PIState : Type := mkPIState {
  pi_current_utilities : Utilities;
  pi_policy : Policy;
  pi_all_iteration_utilities : History;
  pi_hasChanged : bool;
  pi_num_iterations : Z
}.

(** Lines 96-111. *)
Definition pi_init (mdp : MarkovDecisionProcess) : PIState :=
  fold_left (fun st state_position =>
               mkPIState (dict_set (pi_current_utilities st) state_position 0)
                         (dict_set (pi_policy st) state_position (Some UP))
                         (dict_set (pi_all_iteration_utilities st)
                                   state_position [0])
                         (pi_hasChanged st) (pi_num_iterations st))
            (dict_keys (states mdp))
            (mkPIState [] [] [] true 0).

(** One execution of the body of [while hasChanged], lines 114-129. *)
Definition pi_round (mdp : MarkovDecisionProcess) (num_policy_evaluation : Z)
    (st : PIState) : Result PIState :=
  '(current_utilities, new_iteration_utilities) <-
    policy_evaluation mdp (pi_policy st) (pi_current_utilities st)
                      num_policy_evaluation ;;
  '(policy, hasChanged) <-
    policy_improvement mdp (pi_policy st) current_utilities ;;
  let num_iterations := (pi_num_iterations st + num_policy_evaluation)%Z in
  all_iteration_utilities <-
    foldM (fun (h : History) state_position =>
             l <- dict_get h state_position ;;
             l' <- dict_get new_iteration_utilities state_position ;;
             Ok (dict_set h state_position (l ++ l')))
          (dict_keys (states mdp)) (pi_all_iteration_utilities st) ;;
  Ok (mkPIState current_utilities policy all_iteration_utilities hasChanged
                num_iterations).

(** [while hasChanged: ...], lines 113-129. *)
Fixpoint pi_loop (fuel : nat) (mdp : MarkovDecisionProcess)
    (num_policy_evaluation : Z) (st : PIState) : Result PIState :=
  if pi_hasChanged st then
    match fuel with
    | O => OutOfFuel
    | S fuel' =>
        st' <- pi_round mdp num_policy_evaluation st ;;
        pi_loop fuel' mdp num_policy_evaluation st'
    end
  else Ok st.

Definition policy_iteration (fuel : nat) (mdp : MarkovDecisionProcess)
    (num_policy_evaluation : Z) : Result SolverResult :=
  st <- pi_loop fuel mdp num_policy_evaluation (pi_init mdp) ;;
  n <- history_length mdp (pi_all_iteration_utilities st) ;;
  Ok (mkSolverResult (pi_current_utilities st) (pi_policy st) n
                     (pi_all_iteration_utilities st)).

(* ------------------------------------------------------------------ *)
(** ** Reference definitions

    The notions the specification is phrased in, written independently of
    the code above and compared with it in the theorems below. *)

(** The cell an action points at: the state displaced by the action's
    enum value. *)
Definition nominal_neighbor (s : State) (d : MazeActions) : State :=
  (fst s + fst (action_value d), snd s + snd (action_value d))%Z.

(** Moving into a wall or off the grid is replaced by staying in place. *)
Definition stay_or_move (env : Env) (s : State) (d : MazeActions)
    : Result State :=
  w <- is_wall env (nominal_neighbor s d) ;;
  Ok (if w then s else nominal_neighbor s d).

(** Two actions are perpendicular when their displacements are orthogonal. *)
Definition perpendicular (a b : MazeActions) : bool :=
  (fst (action_value a) * fst (action_value b)
   + snd (action_value a) * snd (action_value b) =? 0)%Z.

(** The reverse of an action: the opposite displacement. *)
Definition opposite (a : MazeActions) : MazeActions :=
  match a with UP => DOWN | DOWN => UP | LEFT => RIGHT | RIGHT => LEFT end.

(** The drift model: 0.8 for the intended direction, 0.1 for each
    perpendicular one, nothing for the reverse. *)
Definition drift_probability (intended actual : MazeActions) : option Q :=
  if MazeActions_eqb intended actual then Some (8 # 10)
  else if perpendicular intended actual then Some (1 # 10)
  else None.

(** The outcome map of an intended action, given the state each direction
    resolves to. *)
Definition drift_outcomes (resolve : MazeActions -> State)
    (intended : MazeActions) : OutcomeMap :=
  let side1 := match intended with UP | DOWN => LEFT | _ => UP end in
  let side2 := match intended with UP | DOWN => RIGHT | _ => DOWN end in
  [ (intended, mkOutcome (resolve intended) (8 # 10));
    (side1, mkOutcome (resolve side1) (1 # 10));
    (side2, mkOutcome (resolve side2) (1 # 10)) ].

(** Sum of the probabilities stored in an outcome map. *)
Definition total_probability (om : OutcomeMap) : Q :=
  fold_right (fun kv acc => probability (snd kv) + acc) 0 om.

(** [v] is the largest expected utility over the actions available in [s]. *)
Definition is_max_expected_utility (mdp : MarkovDecisionProcess) (s : State)
    (U : Utilities) (am : ActionMap) (v : Q) : Prop :=
  (exists a, In a (dict_keys am) /\ get_expected_utility mdp s a U = Ok v) /\
  (forall a, In a (dict_keys am) ->
     exists v', get_expected_utility mdp s a U = Ok v' /\ v' <= v).


(** The local variables and the residual after sweep number [n] (counted
    from 0) of a loop that starts in [st] and never breaks. *)
Fixpoint vi_iterate (n : nat) (mdp : MarkovDecisionProcess) (st : VIState)
    : Result (VIState * Q) :=
  match n with
  | O => vi_sweep mdp st
  | S n' => '(st', _) <- vi_sweep mdp st ;; vi_iterate n' mdp st'
  end.

(** A solver that validates its input raises before its loop starts,
    whatever the fuel. *)
Definition rejects_before_loop (mdp : MarkovDecisionProcess) (max_error : Q)
    : Prop :=
  forall fuel, exists e, value_iteration fuel mdp max_error = Raise e.

(** Fail-fast queries: outside the valid state set both [reward_function]
    and [transition_model] raise. *)
Definition fails_fast_outside_states (m : Maze) : Prop :=
  forall s, ~ In s (dict_keys (maze_states m)) ->
    (exists e, Maze_reward_function m s = Raise e) /\
    (forall a b, exists e, Maze_transition_model m s a b = Raise e).

(** A table defined on every state of the maze. *)
Definition defined_on_states {V} (m : Maze) (d : dict State V) : Prop :=
  forall s, In s (dict_keys (maze_states m)) ->
    exists v, dict_get_opt d s = Some v.

(** Local variables of [value_iteration] on which a sweep cannot raise
    [KeyError]: both tables it reads have an entry for every state. *)
Definition vi_ready (m : Maze) (st : VIState) : Prop :=
  defined_on_states m (vi_new_utilities st) /\
  NoDup (dict_keys (vi_new_utilities st)) /\
  defined_on_states m (vi_all_iteration_utilities st).

(** A policy that assigns an actual action to every state of the MDP. *)
Definition total_policy (mdp : MarkovDecisionProcess) (policy : Policy)
    : Prop :=
  forall s, In s (dict_keys (states mdp)) ->
    exists a, dict_get_opt policy s = Some (Some a).

(** Sample mazes used in the examples. *)
Definition maze_1x1 (r gamma : Q) : Result Maze :=
  Maze_init [[Some r]] (0, 0)%Z gamma.

Definition maze_with_wall : Result Maze :=
  Maze_init [[Some 1; None]] (0, 0)%Z (1 # 2).

(** The constructed maze, or an empty one if the constructor raised. *)
Definition maze_or_empty (r : Result Maze) : Maze :=
  match r with
  | Ok m => m
  | _ => mkMaze [] (0, 0)%Z [] [] 0
  end.

(** The 1 x 1 grid [[r]] with discount [gamma], as an MDP. *)
Definition unit_mdp (r gamma : Q) : MarkovDecisionProcess :=
  Maze_as_mdp (maze_or_empty (maze_1x1 r gamma)).

(** The two directions perpendicular to an intended action, in the order
    the outcome table lists them. *)
Definition side_actions (a : MazeActions) : MazeActions * MazeActions :=
  match a with
  | UP | DOWN => (LEFT, RIGHT)
  | LEFT | RIGHT => (UP, DOWN)
  end.

(** A maze whose start state is the wall cell of [[1, W]]. *)
Definition maze_start_on_wall : MarkovDecisionProcess :=
  Maze_as_mdp (maze_or_empty (Maze_init [[Some 1; None]] (0, 1)%Z (1 # 2))).

(** Sum of [transition_model(s, a, b)] over every actual action [b] of the
    maze's action list. *)
Definition transition_total (m : Maze) (s : State) (a : MazeActions)
    : Result Q :=
  foldM (fun acc b => p <- Maze_transition_model m s a b ;; Ok (acc + p))
        (maze_actions m) 0.

(** The three inner loops of [policy_evaluation], named: the initial copy
    (lines 165-167), the update of every state from the current table
    (lines 170-181) and the commit of the updated values with their record
    (lines 183-185); [pe_round] is one pass of [for i in range(...)]. *)
Definition pe_copy (mdp : MarkovDecisionProcess) (utilities : Utilities)
    : Result (Utilities * History) :=
  foldM (fun (acc : Utilities * History) state =>
           let (current_utilities, new_iteration_utilities) := acc in
           u <- dict_get utilities state ;;
           Ok (dict_set current_utilities state u,
               dict_set new_iteration_utilities state []))
        (dict_keys (states mdp)) ([], []).

Definition pe_update (mdp : MarkovDecisionProcess) (policy : Policy)
    (current_utilities updated_utilities : Utilities) : Result Utilities :=
  foldM (fun (updated_utilities : Utilities) state =>
           current_state_reward <- reward_function mdp state ;;
           a <- dict_get policy state ;;
           expected_utility <-
             get_expected_utility_of mdp state a current_utilities ;;
           match current_state_reward with
           | None => Raise TypeError
           | Some r =>
               Ok (dict_set updated_utilities state
                     (r + discount_factor mdp * expected_utility))
           end)
        (dict_keys (states mdp)) updated_utilities.

Definition pe_commit (mdp : MarkovDecisionProcess)
    (updated_utilities : Utilities) (acc : Utilities * History)
    : Result (Utilities * History) :=
  foldM (fun (acc : Utilities * History) state =>
           let (current_utilities, new_iteration_utilities) := acc in
           u <- dict_get updated_utilities state ;;
           let current_utilities := dict_set current_utilities state u in
           l <- dict_get new_iteration_utilities state ;;
           cu <- dict_get current_utilities state ;;
           Ok (current_utilities,
               dict_set new_iteration_utilities state (l ++ [cu])))
        (dict_keys (states mdp)) acc.

Definition pe_round (mdp : MarkovDecisionProcess) (policy : Policy)
    (acc : Utilities * Utilities * History) (i : Z)
    : Result (Utilities * Utilities * History) :=
  let '(current_utilities, updated_utilities, new_iteration_utilities) :=
    acc in
  updated_utilities <-
    pe_update mdp policy current_utilities updated_utilities ;;
  '(current_utilities, new_iteration_utilities) <-
    pe_commit mdp updated_utilities
              (current_utilities, new_iteration_utilities) ;;
  Ok (current_utilities, updated_utilities, new_iteration_utilities).

(** The utility of a state after one evaluation round over the table [U]:
    R(s) + gamma * EU(s, policy[s], U), the Bellman equation with the
    action fixed by the policy. *)
Definition is_policy_backup (mdp : MarkovDecisionProcess) (policy : Policy)
    (U : Utilities) (s : State) (v : Q) : Prop :=
  exists r a eu,
    reward_function mdp s = Ok (Some r) /\
    dict_get_opt policy s = Some a /\
    get_expected_utility_of mdp s a U = Ok eu /\
    v = r + discount_factor mdp * eu.

(** No row of the grid is shorter than its first row ([True] for the empty
    grid). *)
Definition no_short_row (env : Env) : bool :=
  match env with
  | [] => true
  | row0 :: _ => forallb (fun row => (len row0 <=? len row)%Z) env
  end.


(* ------------------------------------------------------------------ *)
(** ** Constants.py and Utility.py *)

(** The maze objects: green and brown squares, walls, empty squares. *)
Module Constants.
Definition G : Cell := Some 1.
Definition B : Cell := Some (-1).
Definition W : Cell := None.
Definition E : Cell := Some (-4 # 100).
End Constants.








(* ------------------------------------------------------------------ *)
(** ** The program over binary64 numbers

    Python's [float] is the IEEE 754 binary64 format.  The definitions of
    this module are the ones above with every number a [float], Rocq's
    primitive binary64 numbers, whose operations round to nearest even as
    Python's do: sums round, products overflow to an infinity, and
    [inf - inf] and [0 * inf] are nan.  An int of the source (the rewards +1
    and -1, the initial utility 0) stands for the float of the same value.
    Arithmetic never raises, except the division by zero; a comparison with
    nan is false, so [x > y] is not the negation of [x <= y]. *)
Module Binary64.

#[local] Set Warnings "-inexact-float".

(** [x > y] and [x < y] *)
Definition gt (x y : float) : bool := (y <? x)%float.
Definition lt (x y : float) : bool := (x <? y)%float.

(** [max(a, b)] returns [a] unless [b > a]. *)
Definition py_max (a b : float) : float := if gt b a then b else a.

(** [x / y] *)
Definition py_div (x y : float) : Result float :=
  if (y =? 0)%float then Raise ZeroDivisionError else Ok (x / y)%float.

(** *** Maze.py *)

Definition Cell : Type := option float.
Definition Env : Type := list (list Cell).

Record Outcome : Type := mkOutcome {
  next_state : State;
  probability : float
}.

Definition OutcomeMap : Type := dict MazeActions Outcome.
Definition ActionMap : Type := dict MazeActions OutcomeMap.
Definition StateTable : Type := dict State ActionMap.

Definition is_wall (environment : Env) (state : State) : Result bool :=
  if (fst state <? 0)%Z then Ok true
  else if (fst state >=? len environment)%Z then Ok true
  else if (snd state <? 0)%Z then Ok true
  else
    row0 <- py_index environment 0 ;;
    if (snd state >=? len row0)%Z then Ok true
    else
      row <- py_index environment (fst state) ;;
      cell <- py_index row (snd state) ;;
      Ok (match cell with None => true | Some _ => false end).

Definition get_next_state_probabilities (environment : Env) (state : State)
    (action : MazeActions) : Result OutcomeMap :=
  let up_state := (fst state - 1, snd state)%Z in
  w <- is_wall environment up_state ;;
  let up_state := if w then state else up_state in
  let down_state := (fst state + 1, snd state)%Z in
  w <- is_wall environment down_state ;;
  let down_state := if w then state else down_state in
  let left_state := (fst state, snd state - 1)%Z in
  w <- is_wall environment left_state ;;
  let left_state := if w then state else left_state in
  let right_state := (fst state, snd state + 1)%Z in
  w <- is_wall environment right_state ;;
  let right_state := if w then state else right_state in
  Ok (match action with
      | UP =>
          [ (UP, mkOutcome up_state 0.8);
            (LEFT, mkOutcome left_state 0.1);
            (RIGHT, mkOutcome right_state 0.1) ]
      | DOWN =>
          [ (DOWN, mkOutcome down_state 0.8);
            (LEFT, mkOutcome left_state 0.1);
            (RIGHT, mkOutcome right_state 0.1) ]
      | LEFT =>
          [ (LEFT, mkOutcome left_state 0.8);
            (UP, mkOutcome up_state 0.1);
            (DOWN, mkOutcome down_state 0.1) ]
      | RIGHT =>
          [ (RIGHT, mkOutcome right_state 0.8);
            (UP, mkOutcome up_state 0.1);
            (DOWN, mkOutcome down_state 0.1) ]
      end).

Definition build_action_next_state_map (environment : Env) (state : State)
    : Result ActionMap :=
  foldM (fun (d : ActionMap) action =>
           m <- get_next_state_probabilities environment state action ;;
           Ok (dict_set d action m))
        all_MazeActions [].

Definition add_cell (environment : Env) (row : Z) (d : StateTable) (col : Z)
    : Result StateTable :=
  w <- is_wall environment (row, col) ;;
  Ok (if w then d else dict_set d (row, col) []).

Definition add_row (environment : Env) (d : StateTable) (row : Z)
    : Result StateTable :=
  row0 <- py_index environment 0 ;;
  foldM (add_cell environment row) (py_range (len row0)) d.

Definition init_states (environment : Env) : Result StateTable :=
  foldM (add_row environment) (py_range (len environment)) [].

Record Maze : Type := mkMaze {
  environment : Env;
  maze_start_state : State;
  maze_states : StateTable;
  maze_actions : list MazeActions;
  maze_discount_factor : float
}.

Definition Maze_init (environment : Env) (start_state : State)
    (discount_factor : float) : Result Maze :=
  states <- init_states environment ;;
  states <- foldM (fun (d : StateTable) state =>
                     m <- build_action_next_state_map environment state ;;
                     Ok (dict_set d state m))
                  (dict_keys states) states ;;
  Ok (mkMaze environment start_state states all_MazeActions discount_factor).

(** [return next_state_probability["probability"] if next_state_probability
    else 0] *)
Definition Maze_transition_model (self : Maze) (current_state : State)
    (intended_action actual_action : MazeActions) : Result float :=
  action_map <- dict_get (maze_states self) current_state ;;
  next_state_probability_map <- dict_get action_map intended_action ;;
  match dict_get_opt next_state_probability_map actual_action with
  | Some next_state_probability => Ok (probability next_state_probability)
  | None => Ok 0%float
  end.

Definition Maze_reward_function (self : Maze) (state : State) : Result Cell :=
  row <- py_index (environment self) (fst state) ;;
  py_index row (snd state).

(** *** MarkovDecisionProcess.py *)

Record MarkovDecisionProcess : Type := mkMDP {
  states : StateTable;
  actions : list MazeActions;
  discount_factor : float;
  start_state : State;
  transition_model : State -> MazeActions -> MazeActions -> Result float;
  reward_function : State -> Result Cell
}.

Definition Maze_as_mdp (self : Maze) : MarkovDecisionProcess :=
  mkMDP (maze_states self) (maze_actions self) (maze_discount_factor self)
        (maze_start_state self)
        (Maze_transition_model self) (Maze_reward_function self).

(** *** Algorithms.py *)

Definition Utilities : Type := dict State float.
Definition Policy : Type := dict State (option MazeActions).
Definition History : Type := dict State (list float).

Record SolverResult : Type := mkSolverResult {
  converged_utilities : Utilities;
  optimal_policy : Policy;
  num_iterations : Z;
  iteration_utilities : History
}.

(** [get_expected_utility]: the products are added to 0 one after the other,
    in the order of the stored outcomes. *)
Definition get_expected_utility (mdp : MarkovDecisionProcess)
    (current_state : State) (intended_action : MazeActions)
    (utilities : Utilities) : Result float :=
  action_map <- dict_get (states mdp) current_state ;;
  stochastic_next_states <- dict_get action_map intended_action ;;
  foldM (fun expected_utility (kv : MazeActions * Outcome) =>
           let (stochastic_next_state, outcome) := kv in
           next_state_utility <- dict_get utilities (next_state outcome) ;;
           p <- transition_model mdp current_state intended_action
                                 stochastic_next_state ;;
           Ok (expected_utility + p * next_state_utility)%float)
        stochastic_next_states 0%float.

(** [get_expected_utility(mdp, state, policy[state], utilities)] when the
    policy entry may be the [None] placeholder: [None] is not a key of the
    per-state action map. *)
Definition get_expected_utility_of (mdp : MarkovDecisionProcess)
    (current_state : State) (intended_action : option MazeActions)
    (utilities : Utilities) : Result float :=
  match intended_action with
  | Some a => get_expected_utility mdp current_state a utilities
  | None => Raise KeyError
  end.

(** The arg-max loop shared by [bellman_equation] and [policy_improvement]:
    [max_expected_utility = float('-inf'); best_action = None;
     for action in action_next_state_map:
       if expected_utility > max_expected_utility: ...]. *)
Definition best_action_loop (mdp : MarkovDecisionProcess) (state : State)
    (utilities : Utilities) (action_next_state_map : ActionMap)
    : Result (float * option MazeActions) :=
  foldM (fun (acc : float * option MazeActions) action =>
           let (max_expected_utility, best_action) := acc in
           expected_utility <-
             get_expected_utility mdp state action utilities ;;
           Ok (if gt expected_utility max_expected_utility
               then (expected_utility, Some action)
               else (max_expected_utility, best_action)))
        (dict_keys action_next_state_map) (neg_infinity, None).

(** [bellman_equation]: the sum is returned whatever the loop has found,
    also when no action was selected and the maximum is still -inf. *)
Definition bellman_equation (mdp : MarkovDecisionProcess)
    (current_state : State) (current_utilities : Utilities)
    : Result (float * option MazeActions) :=
  action_next_state_map <- dict_get (states mdp) current_state ;;
  current_state_reward <- reward_function mdp current_state ;;
  '(max_expected_utility, best_action) <-
     best_action_loop mdp current_state current_utilities
                      action_next_state_map ;;
  match current_state_reward with
  | None => Raise TypeError
  | Some r =>
      Ok ((r + discount_factor mdp * max_expected_utility)%float, best_action)
  end.

Record VIState : Type := mkVIState {
  vi_current_utilities : Utilities;
  vi_new_utilities : Utilities;
  vi_all_iteration_utilities : History;
  vi_optimal_policy : Policy
}.

Definition vi_init (mdp : MarkovDecisionProcess) : VIState :=
  fold_left (fun st state =>
               mkVIState (vi_current_utilities st)
                         (dict_set (vi_new_utilities st) state 0%float)
                         (dict_set (vi_all_iteration_utilities st) state [])
                         (dict_set (vi_optimal_policy st) state None))
            (dict_keys (states mdp))
            (mkVIState [] [] [] []).

Definition vi_sweep (mdp : MarkovDecisionProcess) (st : VIState)
    : Result (VIState * float) :=
  let current_utilities :=
    dict_update (vi_current_utilities st) (vi_new_utilities st) in
  all_iteration_utilities <-
    foldM (fun (h : History) state =>
             l <- dict_get h state ;;
             u <- dict_get current_utilities state ;;
             Ok (dict_set h state (l ++ [u])))
          (dict_keys (states mdp)) (vi_all_iteration_utilities st) ;;
  '(new_utilities, optimal_policy, max_utility_difference) <-
    foldM (fun (acc : Utilities * Policy * float) state =>
             let '(new_utilities, optimal_policy, max_utility_difference) :=
               acc in
             '(updated_utility, best_action) <-
               bellman_equation mdp state current_utilities ;;
             let new_utilities := dict_set new_utilities state updated_utility in
             let optimal_policy := dict_set optimal_policy state best_action in
             nu <- dict_get new_utilities state ;;
             cu <- dict_get current_utilities state ;;
             Ok (new_utilities, optimal_policy,
                 py_max max_utility_difference (abs (nu - cu))%float))
          (dict_keys (states mdp))
          (vi_new_utilities st, vi_optimal_policy st, 0%float) ;;
  Ok (mkVIState current_utilities new_utilities all_iteration_utilities
                optimal_policy,
      max_utility_difference).

(** [max_error * (1 - mdp.discount_factor) / mdp.discount_factor] *)
Definition stopping_threshold (mdp : MarkovDecisionProcess)
    (max_error : float) : Result float :=
  py_div (max_error * (1 - discount_factor mdp))%float (discount_factor mdp).

Fixpoint vi_loop (fuel : nat) (mdp : MarkovDecisionProcess)
    (max_error : float) (st : VIState) : Result VIState :=
  match fuel with
  | O => OutOfFuel
  | S fuel' =>
      '(st', max_utility_difference) <- vi_sweep mdp st ;;
      threshold <- stopping_threshold mdp max_error ;;
      if lt max_utility_difference threshold then Ok st'
      else vi_loop fuel' mdp max_error st'
  end.

Definition history_length (mdp : MarkovDecisionProcess) (h : History)
    : Result Z :=
  match dict_get_opt h (start_state mdp) with
  | Some l => Ok (len l)
  | None => Raise TypeError
  end.

Definition value_iteration (fuel : nat) (mdp : MarkovDecisionProcess)
    (max_error : float) : Result SolverResult :=
  st <- vi_loop fuel mdp max_error (vi_init mdp) ;;
  n <- history_length mdp (vi_all_iteration_utilities st) ;;
  Ok (mkSolverResult (vi_current_utilities st) (vi_optimal_policy st) n
                     (vi_all_iteration_utilities st)).

Definition policy_evaluation (mdp : MarkovDecisionProcess) (policy : Policy)
    (utilities : Utilities) (num_policy_evaluation : Z)
    : Result (Utilities * History) :=
  '(current_utilities, new_iteration_utilities) <-
    foldM (fun (acc : Utilities * History) state =>
             let (current_utilities, new_iteration_utilities) := acc in
             u <- dict_get utilities state ;;
             Ok (dict_set current_utilities state u,
                 dict_set new_iteration_utilities state []))
          (dict_keys (states mdp)) ([], []) ;;
  '(current_utilities, _, new_iteration_utilities) <-
    foldM (fun (acc : Utilities * Utilities * History) (i : Z) =>
             let '(current_utilities, updated_utilities,
                   new_iteration_utilities) := acc in
             updated_utilities <-
               foldM (fun (updated_utilities : Utilities) state =>
                        current_state_reward <- reward_function mdp state ;;
                        a <- dict_get policy state ;;
                        expected_utility <-
                          get_expected_utility_of mdp state a
                                                  current_utilities ;;
                        match current_state_reward with
                        | None => Raise TypeError
                        | Some r =>
                            Ok (dict_set updated_utilities state
                                  (r + discount_factor mdp * expected_utility)%float)
                        end)
                     (dict_keys (states mdp)) updated_utilities ;;
             '(current_utilities, new_iteration_utilities) <-
               foldM (fun (acc : Utilities * History) state =>
                        let (current_utilities, new_iteration_utilities) :=
                          acc in
                        u <- dict_get updated_utilities state ;;
                        let current_utilities :=
                          dict_set current_utilities state u in
                        l <- dict_get new_iteration_utilities state ;;
                        cu <- dict_get current_utilities state ;;
                        Ok (current_utilities,
                            dict_set new_iteration_utilities state
                                     (l ++ [cu])))
                     (dict_keys (states mdp))
                     (current_utilities, new_iteration_utilities) ;;
             Ok (current_utilities, updated_utilities,
                 new_iteration_utilities))
          (py_range num_policy_evaluation)
          (current_utilities, [], new_iteration_utilities) ;;
  Ok (current_utilities, new_iteration_utilities).

Definition policy_improvement (mdp : MarkovDecisionProcess) (policy : Policy)
    (utilities : Utilities) : Result (Policy * bool) :=
  foldM (fun (acc : Policy * bool) state =>
           let (improved_policy, hasChanged) := acc in
           action_next_state_map <- dict_get (states mdp) state ;;
           '(max_expected_utility, best_action) <-
             best_action_loop mdp state utilities action_next_state_map ;;
           a <- dict_get policy state ;;
           current_expected_utility <-
             get_expected_utility_of mdp state a utilities ;;
           if gt max_expected_utility current_expected_utility
           then Ok (dict_set improved_policy state best_action, true)
           else
             a <- dict_get policy state ;;
             Ok (dict_set improved_policy state a, hasChanged))
        (dict_keys (states mdp)) ([], false).

Record PIState : Type := mkPIState {
  pi_current_utilities : Utilities;
  pi_policy : Policy;
  pi_all_iteration_utilities : History;
  pi_hasChanged : bool;
  pi_num_iterations : Z
}.

Definition pi_init (mdp : MarkovDecisionProcess) : PIState :=
  fold_left (fun st state_position =>
               mkPIState
                 (dict_set (pi_current_utilities st) state_position 0%float)
                 (dict_set (pi_policy st) state_position (Some UP))
                 (dict_set (pi_all_iteration_utilities st)
                           state_position [0%float])
                 (pi_hasChanged st) (pi_num_iterations st))
            (dict_keys (states mdp))
            (mkPIState [] [] [] true 0).

Definition pi_round (mdp : MarkovDecisionProcess) (num_policy_evaluation : Z)
    (st : PIState) : Result PIState :=
  '(current_utilities, new_iteration_utilities) <-
    policy_evaluation mdp (pi_policy st) (pi_current_utilities st)
                      num_policy_evaluation ;;
  '(policy, hasChanged) <-
    policy_improvement mdp (pi_policy st) current_utilities ;;
  let num_iterations := (pi_num_iterations st + num_policy_evaluation)%Z in
  all_iteration_utilities <-
    foldM (fun (h : History) state_position =>
             l <- dict_get h state_position ;;
             l' <- dict_get new_iteration_utilities state_position ;;
             Ok (dict_set h state_position (l ++ l')))
          (dict_keys (states mdp)) (pi_all_iteration_utilities st) ;;
  Ok (mkPIState current_utilities policy all_iteration_utilities hasChanged
                num_iterations).

Fixpoint pi_loop (fuel : nat) (mdp : MarkovDecisionProcess)
    (num_policy_evaluation : Z) (st : PIState) : Result PIState :=
  if pi_hasChanged st then
    match fuel with
    | O => OutOfFuel
    | S fuel' =>
        st' <- pi_round mdp num_policy_evaluation st ;;
        pi_loop fuel' mdp num_policy_evaluation st'
    end
  else Ok st.

Definition policy_iteration (fuel : nat) (mdp : MarkovDecisionProcess)
    (num_policy_evaluation : Z) : Result SolverResult :=
  st <- pi_loop fuel mdp num_policy_evaluation (pi_init mdp) ;;
  n <- history_length mdp (pi_all_iteration_utilities st) ;;
  Ok (mkSolverResult (pi_current_utilities st) (pi_policy st) n
                     (pi_all_iteration_utilities st)).

(** *** Reference definitions *)





(** The local variables and the residual after sweep number [n] (counted
    from 0) of a loop that starts in [st] and never breaks. *)
Fixpoint vi_iterate (n : nat) (mdp : MarkovDecisionProcess) (st : VIState)
    : Result (VIState * float) :=
  match n with
  | O => vi_sweep mdp st
  | S n' => '(st', _) <- vi_sweep mdp st ;; vi_iterate n' mdp st'
  end.

(** Moving into a wall or off the grid is replaced by staying in place. *)
Definition stay_or_move (env : Env) (s : State) (d : MazeActions)
    : Result State :=
  w <- is_wall env (nominal_neighbor s d) ;;
  Ok (if w then s else nominal_neighbor s d).


(** The outcome map of an intended action, given the state each direction
    resolves to. *)
Definition drift_outcomes (resolve : MazeActions -> State)
    (intended : MazeActions) : OutcomeMap :=
  [ (intended, mkOutcome (resolve intended) 0.8);
    (fst (side_actions intended),
     mkOutcome (resolve (fst (side_actions intended))) 0.1);
    (snd (side_actions intended),
     mkOutcome (resolve (snd (side_actions intended))) 0.1) ].





(** A policy that assigns an actual action to every state of the MDP. *)
Definition total_policy (mdp : MarkovDecisionProcess) (policy : Policy)
    : Prop :=
  forall s, In s (dict_keys (states mdp)) ->
    exists a, dict_get_opt policy s = Some (Some a).


(** The constructed maze, or an empty one if the constructor raised. *)
Definition maze_or_empty (r : Result Maze) : Maze :=
  match r with
  | Ok m => m
  | _ => mkMaze [] (0, 0)%Z [] [] 0
  end.


End Binary64.

(* ------------------------------------------------------------------ *)
(** ** Basic facts: results, loops, dictionaries *)

Lemma bind_Ok_inv {A B} (m : Result A) (f : A -> Result B) (b : B) :
  bind m f = Ok b -> exists a, m = Ok a /\ f a = Ok b.
Proof. destruct m; simpl; intros E; try discriminate. eauto. Qed.

(** Split a successful [bind] in a hypothesis into its two steps. *)
Ltac bind_inv H :=
  let x := fresh "x" in
  let E := fresh "E" in
  apply bind_Ok_inv in H; destruct H as (x & E & H).

(** A property kept by every successful step is kept by the loop. *)
Lemma foldM_invariant {A S} (P : S -> Prop) (f : S -> A -> Result S)
    (l : list A) (s r : S) :
  P s ->
  (forall s x s', In x l -> P s -> f s x = Ok s' -> P s') ->
  foldM f l s = Ok r -> P r.
Proof.
  revert s; induction l as [|x l IH]; intros s Hs Hstep; simpl.
  - intros E; inversion E; subst; exact Hs.
  - intros E. bind_inv E. apply (IH x0); auto.
    + apply (Hstep s x); simpl; auto.
    + intros; eapply Hstep; simpl; eauto.
Qed.

(** A property established by the step at [x] and kept by every other step
    holds after the loop. *)
Lemma foldM_established {A S} (Q : S -> Prop) (f : S -> A -> Result S)
    (l : list A) (x : A) (s r : S) :
  In x l ->
  (forall s s', f s x = Ok s' -> Q s') ->
  (forall s y s', Q s -> f s y = Ok s' -> Q s') ->
  foldM f l s = Ok r -> Q r.
Proof.
  revert s; induction l as [|y l IH]; intros s Hin Hx Hkeep; simpl.
  - destruct Hin.
  - intros E. bind_inv E. destruct Hin as [->|Hin].
    + apply (@foldM_invariant _ _ Q f l x0); auto.
      * eapply Hx; eauto.
      * intros; eapply Hkeep; eauto.
    + eapply IH; eauto.
Qed.

Section DictFacts.
Context {K V : Type} `{EqKey K}.
Implicit Types (d : dict K V) (k : K) (v : V).

Lemma keqb_refl k : keqb k k = true.
  Proof. apply keqb_eq; reflexivity. Qed.

Lemma keqb_neq k k' : k <> k' -> keqb k k' = false.
  Proof.
    intros N. destruct (keqb k k') eqn:E; auto.
    apply keqb_eq in E; contradiction.
  Qed.

Lemma dict_get_opt_set_same d k v :
    dict_get_opt (dict_set d k v) k = Some v.
  Proof.
    induction d as [|[k' v'] d IH]; simpl.
    - rewrite keqb_refl; reflexivity.
    - destruct (keqb k' k) eqn:E; simpl; rewrite E; auto.
  Qed.

Lemma dict_get_opt_set_other d k k' v :
    k <> k' -> dict_get_opt (dict_set d k v) k' = dict_get_opt d k'.
  Proof.
    intros N. induction d as [|[k0 v0] d IH]; simpl.
    - rewrite keqb_neq by auto; reflexivity.
    - destruct (keqb k0 k) eqn:E; simpl.
      + apply keqb_eq in E; subst k0. rewrite keqb_neq by auto; reflexivity.
      + rewrite IH; reflexivity.
  Qed.

Lemma dict_get_set_same d k v : dict_get (dict_set d k v) k = Ok v.
  Proof. unfold dict_get; rewrite dict_get_opt_set_same; reflexivity. Qed.

Lemma dict_get_Ok d k v : dict_get d k = Ok v <-> dict_get_opt d k = Some v.
  Proof.
    unfold dict_get; destruct (dict_get_opt d k); split; congruence.
  Qed.

Lemma dict_get_opt_In d k :
    In k (dict_keys d) <-> exists v, dict_get_opt d k = Some v.
  Proof.
    induction d as [|[k' v'] d IH]; simpl.
    - split; [tauto | intros [v E]; discriminate].
    - destruct (keqb k' k) eqn:E.
      + apply keqb_eq in E; subst. split; eauto.
      + rewrite <- IH. split; auto. intros [->|]; auto.
        rewrite keqb_refl in E; discriminate.
  Qed.

Lemma dict_keys_set d k v :
    forall k', In k' (dict_keys (dict_set d k v)) <->
               k' = k \/ In k' (dict_keys d).
  Proof.
    intros k'. induction d as [|[k0 v0] d IH]; simpl.
    - intuition.
    - destruct (keqb k0 k) eqn:E; simpl.
      + apply keqb_eq in E; subst. intuition.
      + rewrite IH. intuition.
  Qed.

Lemma dict_keys_set_present d k v :
    In k (dict_keys d) -> dict_keys (dict_set d k v) = dict_keys d.
  Proof.
    induction d as [|[k0 v0] d IH]; simpl; [tauto|].
    destruct (keqb k0 k) eqn:E; simpl; auto.
    intros [->|Hin]; [rewrite keqb_refl in E; discriminate|].
    rewrite IH; auto.
  Qed.

Lemma dict_keys_set_NoDup d k v :
    NoDup (dict_keys d) -> NoDup (dict_keys (dict_set d k v)).
  Proof.
    induction d as [|[k0 v0] d IH]; simpl; intros N.
    - constructor; [intros []|constructor].
    - inversion N; subst. destruct (keqb k0 k) eqn:E; simpl.
      + constructor; auto.
      + constructor; auto. rewrite dict_keys_set. intros [->|]; auto.
        rewrite keqb_refl in E; discriminate.
  Qed.

Lemma dict_get_opt_notin d k :
    ~ In k (dict_keys d) -> dict_get_opt d k = None.
  Proof.
    intros N. destruct (dict_get_opt d k) eqn:E; auto.
    exfalso; apply N, dict_get_opt_In; eauto.
  Qed.

  (** [d1.update(d2)] reads every key of [d2] from [d2]. *)
Lemma dict_update_get d1 d2 k :
    NoDup (dict_keys d2) ->
    dict_get_opt (dict_update d1 d2) k =
    match dict_get_opt d2 k with
    | Some v => Some v
    | None => dict_get_opt d1 k
    end.
  Proof.
    unfold dict_update. revert d1.
    induction d2 as [|[k' v'] l IH]; intros d1 N; simpl; auto.
    inversion N as [|? ? Hnotin N']; subst.
    rewrite IH by assumption.
    destruct (keqb k' k) eqn:E.
    - apply keqb_eq in E; subst k'.
      rewrite (dict_get_opt_notin l k Hnotin).
      apply dict_get_opt_set_same.
    - rewrite dict_get_opt_set_other; auto.
      intros ->; rewrite keqb_refl in E; discriminate.
  Qed.
End DictFacts.

(** Numbers. *)
Lemma Qltb_lt x y : Qltb x y = true <-> x < y.
Proof.
  unfold Qltb. rewrite negb_true_iff. split.
  - intros E. apply Qnot_le_lt. intros L.
    apply Qle_bool_iff in L. congruence.
  - intros L. destruct (Qle_bool y x) eqn:E; auto.
    apply Qle_bool_iff in E. apply Qle_not_lt in E. contradiction.
Qed.

Lemma Qltb_ge x y : Qltb x y = false <-> y <= x.
Proof.
  unfold Qltb. rewrite negb_false_iff. apply Qle_bool_iff.
Qed.

Lemma py_max_spec a b :
  a <= py_max a b /\ b <= py_max a b /\ (py_max a b = a \/ py_max a b = b).
Proof.
  unfold py_max. destruct (Qltb a b) eqn:E.
  - apply Qltb_lt in E. repeat split; auto; lra.
  - apply Qltb_ge in E. repeat split; auto; lra.
Qed.

(* ------------------------------------------------------------------ *)
(** ** The grid: indexing, walls and the state set *)

Lemma In_py_range n i : In i (py_range n) <-> (0 <= i < n)%Z.
Proof.
  unfold py_range. rewrite in_map_iff. split.
  - intros (k & <- & Hk). apply in_seq in Hk. lia.
  - intros Hi. exists (Z.to_nat i). split; [lia|]. apply in_seq. lia.
Qed.

Lemma py_index_in_range {A} (l : list A) i :
  (0 <= i < len l)%Z -> exists x, py_index l i = Ok x.
Proof.
  unfold py_index, len. intros Hi.
  destruct (i <? 0)%Z eqn:E; [apply Z.ltb_lt in E; lia|]. rewrite E.
  destruct (nth_error l (Z.to_nat i)) eqn:N; eauto.
  apply nth_error_None in N. lia.
Qed.

Lemma py_index_out_of_range {A} (l : list A) i :
  (len l <= i \/ i < - len l)%Z -> py_index l i = Raise IndexError.
Proof.
  unfold py_index, len. intros Hi.
  destruct (i <? 0)%Z eqn:E.
  - apply Z.ltb_lt in E.
    destruct (Z.of_nat (length l) + i <? 0)%Z eqn:E'; auto.
    apply Z.ltb_ge in E'. lia.
  - apply Z.ltb_ge in E. rewrite (proj2 (Z.ltb_ge i 0) E).
    destruct (nth_error l (Z.to_nat i)) eqn:N; auto.
    assert (nth_error l (Z.to_nat i) <> None) as N' by congruence.
    apply nth_error_Some in N'. lia.
Qed.

(** The cells for which [is_wall] answers [False] are exactly the non-wall
    cells of the rectangle [len(environment)] x [len(environment[0])]. *)
Lemma is_wall_false_iff env s :
  is_wall env s = Ok false <->
  exists row0 row r,
    py_index env 0 = Ok row0 /\
    (0 <= fst s < len env)%Z /\ (0 <= snd s < len row0)%Z /\
    py_index env (fst s) = Ok row /\ py_index row (snd s) = Ok (Some r).
Proof.
  unfold is_wall. split.
  - destruct (fst s <? 0)%Z eqn:E1; [discriminate|].
    destruct (fst s >=? len env)%Z eqn:E2; [discriminate|].
    destruct (snd s <? 0)%Z eqn:E3; [discriminate|].
    destruct (py_index env 0) as [row0| |] eqn:R0; simpl; try discriminate.
    destruct (snd s >=? len row0)%Z eqn:E4; [discriminate|].
    destruct (py_index env (fst s)) as [row| |] eqn:R; simpl; try discriminate.
    destruct (py_index row (snd s)) as [[r|]| |] eqn:C; simpl;
      try discriminate.
    intros _. exists row0, row, r.
    apply Z.ltb_ge in E1, E3. rewrite Z.geb_leb in E2, E4.
    apply Z.leb_gt in E2, E4. repeat split; auto; lia.
  - intros (row0 & row & r & R0 & H1 & H2 & R & C).
    destruct (fst s <? 0)%Z eqn:E1; [apply Z.ltb_lt in E1; lia|].
    destruct (fst s >=? len env)%Z eqn:E2;
      [rewrite Z.geb_leb in E2; apply Z.leb_le in E2; lia|].
    destruct (snd s <? 0)%Z eqn:E3; [apply Z.ltb_lt in E3; lia|].
    rewrite R0; simpl.
    destruct (snd s >=? len row0)%Z eqn:E4;
      [rewrite Z.geb_leb in E4; apply Z.leb_le in E4; lia|].
    rewrite R; simpl. rewrite C; simpl. reflexivity.
Qed.

Lemma add_cell_keys env row d col d' :
  add_cell env row d col = Ok d' ->
  (forall s, In s (dict_keys d') ->
     In s (dict_keys d) \/ (s = (row, col) /\ is_wall env s = Ok false)) /\
  (forall s, In s (dict_keys d) -> In s (dict_keys d')) /\
  (is_wall env (row, col) = Ok false -> In (row, col) (dict_keys d')) /\
  (NoDup (dict_keys d) -> NoDup (dict_keys d')).
Proof.
  unfold add_cell. intros E. bind_inv E. destruct x; inversion E; subst.
  - repeat split; auto. congruence.
  - repeat split.
    + intros s Hs. apply dict_keys_set in Hs. destruct Hs as [->|]; auto.
    + intros s Hs. apply dict_keys_set; auto.
    + intros _. apply dict_keys_set; auto.
    + apply dict_keys_set_NoDup.
Qed.

Lemma init_states_sound env d :
  init_states env = Ok d ->
  forall s, In s (dict_keys d) -> is_wall env s = Ok false.
Proof.
  unfold init_states.
  set (P := fun d : StateTable =>
              forall s, In s (dict_keys d) -> is_wall env s = Ok false).
  apply (@foldM_invariant _ _ P).
  - intros s [].
  - intros d0 row d1 _ Hd0 E. unfold add_row in E. bind_inv E.
    revert E. apply (@foldM_invariant _ _ P); auto.
    intros d2 col d3 _ Hd2 E s Hs.
    apply add_cell_keys in E. destruct E as (E & _).
    destruct (E s Hs) as [|[_ ?]]; auto.
Qed.

Lemma init_states_NoDup env d :
  init_states env = Ok d -> NoDup (dict_keys d).
Proof.
  unfold init_states.
  set (P := fun d : StateTable => NoDup (dict_keys d)).
  apply (@foldM_invariant _ _ P).
  - constructor.
  - intros d0 row d1 _ Hd0 E. unfold add_row in E. bind_inv E.
    revert E. apply (@foldM_invariant _ _ P); auto.
    intros d2 col d3 _ Hd2 E. apply add_cell_keys in E. apply E, Hd2.
Qed.

Lemma init_states_complete env d s :
  init_states env = Ok d -> is_wall env s = Ok false -> In s (dict_keys d).
Proof.
  unfold init_states. intros E W.
  pose proof W as W'. apply is_wall_false_iff in W'.
  destruct W' as (row0 & row & r & R0 & H1 & H2 & _).
  destruct s as [i j]; simpl in *.
  set (P := fun d : StateTable => In (i, j) (dict_keys d)).
  revert E.
  apply (@foldM_established _ _ P (add_row env) _ i).
  - apply In_py_range; auto.
  - intros d0 d1 E. unfold add_row in E. rewrite R0 in E; simpl in E.
    revert E. apply (@foldM_established _ _ P (add_cell env i) _ j).
    + apply In_py_range; auto.
    + intros d2 d3 E. apply add_cell_keys in E. apply E, W.
    + intros d2 col d3 Hd2 E. apply add_cell_keys in E.
      destruct E as (_ & E & _). apply E, Hd2.
  - intros d0 row' d1 Hd0 E. unfold add_row in E. bind_inv E.
    revert E. apply (@foldM_invariant _ _ P); auto.
    intros d2 col d3 _ Hd2 E. apply add_cell_keys in E.
    destruct E as (_ & E & _). apply E, Hd2.
Qed.

(** ** The transition table built by [Maze.__init__] *)

Lemma stay_or_move_valid env s a n :
  is_wall env s = Ok false -> stay_or_move env s a = Ok n ->
  is_wall env n = Ok false.
Proof.
  unfold stay_or_move. intros Hs E. bind_inv E.
  destruct x; inversion E; subst; auto.
Qed.

Lemma get_next_state_probabilities_inv env s a om :
  get_next_state_probabilities env s a = Ok om ->
  exists resolve,
    (forall b, stay_or_move env s b = Ok (resolve b)) /\
    om = drift_outcomes resolve a.
Proof.
  unfold get_next_state_probabilities. intros E.
  bind_inv E. rename x into wu, E0 into Eu.
  bind_inv E. rename x into wd, E0 into Ed.
  bind_inv E. rename x into wl, E0 into El.
  bind_inv E. rename x into wr, E0 into Er.
  exists (fun b => match b with
                   | UP => if wu then s else (fst s - 1, snd s)
                   | DOWN => if wd then s else (fst s + 1, snd s)
                   | LEFT => if wl then s else (fst s, snd s - 1)
                   | RIGHT => if wr then s else (fst s, snd s + 1)
                   end%Z).
  split.
  - intros b. unfold stay_or_move, nominal_neighbor.
    destruct b; simpl; rewrite ?Z.add_0_r;
      try change (fst s + -1)%Z with (fst s - 1)%Z;
      try change (snd s + -1)%Z with (snd s - 1)%Z;
      [rewrite Eu | rewrite Ed | rewrite El | rewrite Er]; reflexivity.
  - inversion E; subst. destruct a; reflexivity.
Qed.

Lemma build_action_next_state_map_inv env s am :
  build_action_next_state_map env s = Ok am ->
  exists resolve,
    (forall b, stay_or_move env s b = Ok (resolve b)) /\
    am = map (fun a => (a, drift_outcomes resolve a)) all_MazeActions.
Proof.
  unfold build_action_next_state_map, all_MazeActions.
  cbn [foldM]. intros E.
  destruct (get_next_state_probabilities env s UP) as [oU| |] eqn:E4;
    cbn [bind] in E; try discriminate.
  destruct (get_next_state_probabilities env s DOWN) as [oD| |] eqn:E5;
    cbn [bind] in E; try discriminate.
  destruct (get_next_state_probabilities env s LEFT) as [oL| |] eqn:E6;
    cbn [bind] in E; try discriminate.
  destruct (get_next_state_probabilities env s RIGHT) as [oR| |] eqn:E7;
    cbn [bind] in E; try discriminate.
  inversion E; subst am; clear E.
  apply get_next_state_probabilities_inv in E4, E5, E6, E7.
  destruct E4 as (r1 & H1 & ->), E5 as (r2 & H2 & ->),
           E6 as (r3 & H3 & ->), E7 as (r4 & H4 & ->).
  cbn [dict_set keqb MazeActions_EqKey MazeActions_eqb].
  exists r1. split; auto.
  assert (Hr : forall r', (forall b, stay_or_move env s b = Ok (r' b)) ->
                          forall a, drift_outcomes r' a = drift_outcomes r1 a).
  { intros r' Hr' a. unfold drift_outcomes.
    assert (forall b, r' b = r1 b) as Q
        by (intros b; specialize (H1 b); specialize (Hr' b); congruence).
    rewrite !Q. reflexivity. }
  simpl. rewrite (Hr r2 H2), (Hr r3 H3), (Hr r4 H4). reflexivity.
Qed.

(** Everything [Maze.__init__] guarantees about the object it builds. *)
Lemma Maze_init_inv env start gamma m :
  Maze_init env start gamma = Ok m ->
  environment m = env /\ maze_start_state m = start /\
  maze_actions m = all_MazeActions /\ maze_discount_factor m = gamma /\
  NoDup (dict_keys (maze_states m)) /\
  (forall s, In s (dict_keys (maze_states m)) <-> is_wall env s = Ok false) /\
  (forall s, In s (dict_keys (maze_states m)) ->
     exists resolve,
       (forall b, stay_or_move env s b = Ok (resolve b)) /\
       dict_get_opt (maze_states m) s =
         Some (map (fun a => (a, drift_outcomes resolve a)) all_MazeActions)).
Proof.
  unfold Maze_init. intros E. bind_inv E. rename x into d0, E0 into E0.
  bind_inv E. rename x into d. inversion E; subst; simpl. clear E.
  set (step := fun (d : StateTable) state =>
                 m <- build_action_next_state_map env state ;;
                 Ok (dict_set d state m)) in E1.
  assert (Hkeys : dict_keys d = dict_keys d0).
  { revert E1.
    apply (@foldM_invariant _ _ (fun d => dict_keys d = dict_keys d0)); auto.
    intros d1 s d2 Hs Hd1 E. unfold step in E. bind_inv E.
    inversion E; subst. rewrite dict_keys_set_present; congruence. }
  repeat split; auto.
  - rewrite Hkeys. eapply init_states_NoDup; eauto.
  - rewrite Hkeys. eapply init_states_sound; eauto.
  - rewrite Hkeys. eapply init_states_complete; eauto.
  - intros s Hs. rewrite Hkeys in Hs.
    set (Q := fun d : StateTable =>
                exists am, build_action_next_state_map env s = Ok am /\
                           dict_get_opt d s = Some am).
    assert (HQ : Q d).
    { revert E1. apply (@foldM_established _ _ Q step _ s); auto.
      - intros d1 d2 E. unfold step in E. bind_inv E. inversion E; subst.
        exists x. split; auto. apply dict_get_opt_set_same.
      - intros d1 y d2 (am & B & G) E. unfold step in E. bind_inv E.
        inversion E; subst. destruct (keqb y s) eqn:K.
        + apply keqb_eq in K; subst y. exists x. split; auto.
          apply dict_get_opt_set_same.
        + exists am. split; auto. rewrite dict_get_opt_set_other; auto.
          intros ->. rewrite keqb_refl in K. discriminate. }
    destruct HQ as (am & B & G).
    apply build_action_next_state_map_inv in B.
    destruct B as (resolve & R & ->). eauto.
Qed.

(** The table entry of a valid state, action by action. *)
Lemma maze_table_entry env start gamma m s :
  Maze_init env start gamma = Ok m ->
  In s (dict_keys (maze_states m)) ->
  exists am resolve,
    dict_get_opt (maze_states m) s = Some am /\
    (forall b, stay_or_move env s b = Ok (resolve b)) /\
    (forall b, is_wall env (resolve b) = Ok false) /\
    (forall b, In (resolve b) (dict_keys (maze_states m))) /\
    dict_keys am = all_MazeActions /\
    (forall a, dict_get_opt am a = Some (drift_outcomes resolve a)).
Proof.
  intros E Hs.
  destruct (Maze_init_inv _ _ _ E) as (_ & _ & _ & _ & _ & Hvalid & Htab).
  destruct (Htab s Hs) as (resolve & R & T).
  assert (W : forall b, is_wall env (resolve b) = Ok false).
  { intros b. eapply stay_or_move_valid; [apply Hvalid, Hs | apply R]. }
  eexists _, resolve. split; [exact T|].
  repeat split; auto.
  - intros b. apply Hvalid, W.
  - intros a; destruct a; reflexivity.
Qed.

(** C6: for every valid state and intended action of a constructed maze the
    stored outcome map is exactly the drift model: the intended direction
    with probability 0.8, each perpendicular direction with probability 0.1,
    no entry for the reverse direction, and each stored next state is the
    neighbour in that direction, or the current state when that neighbour
    is a wall or off the grid. *)
Theorem maze_outcome_distribution env start gamma m s a :
  Maze_init env start gamma = Ok m ->
  In s (dict_keys (maze_states m)) ->
  exists am om,
    dict_get_opt (maze_states m) s = Some am /\
    dict_get_opt am a = Some om /\
    length om = 3%nat /\
    dict_get_opt om (opposite a) = None /\
    forall b,
      match drift_probability a b with
      | Some p => exists n, stay_or_move env s b = Ok n /\
                            dict_get_opt om b = Some (mkOutcome n p)
      | None => dict_get_opt om b = None
      end.
Proof.
  intros E Hs.
  destruct (maze_table_entry _ _ _ _ E Hs)
    as (am & resolve & T & R & _ & _ & _ & A).
  exists am, (drift_outcomes resolve a).
  repeat split; auto.
  - destruct a; reflexivity.
  - intros b. destruct a, b; simpl; eauto.
Qed.

Lemma maze_outcome_distribution_witness :
  exists m, maze_with_wall = Ok m /\
    exists am om,
      dict_get_opt (maze_states m) (0, 0)%Z = Some am /\
      dict_get_opt am RIGHT = Some om /\
      length om = 3%nat /\
      dict_get_opt om (opposite RIGHT) = None /\
      forall b,
        match drift_probability RIGHT b with
        | Some p => exists n,
            stay_or_move [[Some 1; None]] (0, 0)%Z b = Ok n /\
            dict_get_opt om b = Some (mkOutcome n p)
        | None => dict_get_opt om b = None
        end.
Proof.
  eexists. split; [vm_compute; reflexivity|].
  apply (@maze_outcome_distribution [[Some 1; None]] (0, 0)%Z (1 # 2)).
  - vm_compute; reflexivity.
  - simpl; auto.
Defined.

(** C2: in a constructed maze the outcome map of every valid state and
    action has exactly three entries, their probabilities sum to 1, and
    every stored next state is a non-wall cell inside the grid that belongs
    to the state set. *)
Theorem maze_outcomes_form_distribution env start gamma m s a :
  Maze_init env start gamma = Ok m ->
  In s (dict_keys (maze_states m)) ->
  exists am om,
    dict_get_opt (maze_states m) s = Some am /\
    dict_get_opt am a = Some om /\
    length om = 3%nat /\
    total_probability om == 1 /\
    forall b o, In (b, o) om ->
      is_wall env (next_state o) = Ok false /\
      In (next_state o) (dict_keys (maze_states m)).
Proof.
  intros E Hs.
  destruct (maze_table_entry _ _ _ _ E Hs)
    as (am & resolve & T & _ & W & V & _ & A).
  exists am, (drift_outcomes resolve a).
  split; [exact T|]. split; [apply A|].
  split; [destruct a; reflexivity|].
  split; [destruct a; reflexivity|].
  intros b o Hin.
  assert (exists c, next_state o = resolve c) as [c ->].
  { destruct a; simpl in Hin; destruct Hin as [Hin|[Hin|[Hin|[]]]];
      inversion Hin; simpl; eauto. }
  split; [apply W | apply V].
Qed.

Lemma maze_outcomes_form_distribution_witness :
  exists m, maze_with_wall = Ok m /\
    exists am om,
      dict_get_opt (maze_states m) (0, 0)%Z = Some am /\
      dict_get_opt am UP = Some om /\
      length om = 3%nat /\
      total_probability om == 1 /\
      forall b o, In (b, o) om ->
        is_wall [[Some 1; None]] (next_state o) = Ok false /\
        In (next_state o) (dict_keys (maze_states m)).
Proof.
  eexists. split; [vm_compute; reflexivity|].
  apply (@maze_outcomes_form_distribution [[Some 1; None]] (0, 0)%Z (1 # 2)).
  - vm_compute; reflexivity.
  - simpl; auto.
Defined.

(** ** Queries outside the state set *)

Lemma foldM_steps_succeed {A S} (f : S -> A -> Result S) (l : list A)
    (s r : S) (x : A) :
  foldM f l s = Ok r -> In x l -> exists s0 s1, f s0 x = Ok s1.
Proof.
  revert s; induction l as [|y l IH]; intros s E Hin; simpl in *.
  - destruct Hin.
  - bind_inv E. destruct Hin as [->|Hin]; eauto.
Qed.

(** A successful construction has looked at every cell of the rectangle. *)
Lemma init_states_total env d row0 s :
  init_states env = Ok d -> py_index env 0 = Ok row0 ->
  (0 <= fst s < len env)%Z -> (0 <= snd s < len row0)%Z ->
  exists w, is_wall env s = Ok w.
Proof.
  unfold init_states. intros E R0 H1 H2. destruct s as [i j]; simpl in *.
  destruct (foldM_steps_succeed _ _ _ i E) as (d0 & d1 & E1).
  { apply In_py_range; auto. }
  unfold add_row in E1. rewrite R0 in E1; simpl in E1.
  destruct (foldM_steps_succeed _ _ _ j E1) as (d2 & d3 & E2).
  { apply In_py_range; auto. }
  unfold add_cell in E2. bind_inv E2. eauto.
Qed.

Lemma is_wall_true_inside env s row0 :
  is_wall env s = Ok true -> py_index env 0 = Ok row0 ->
  (0 <= fst s < len env)%Z -> (0 <= snd s < len row0)%Z ->
  exists row, py_index env (fst s) = Ok row /\
              py_index row (snd s) = Ok None.
Proof.
  unfold is_wall. intros E R0 H1 H2.
  destruct (fst s <? 0)%Z eqn:E1; [apply Z.ltb_lt in E1; lia|].
  destruct (fst s >=? len env)%Z eqn:E2;
    [rewrite Z.geb_leb in E2; apply Z.leb_le in E2; lia|].
  destruct (snd s <? 0)%Z eqn:E3; [apply Z.ltb_lt in E3; lia|].
  rewrite R0 in E; simpl in E.
  destruct (snd s >=? len row0)%Z eqn:E4;
    [rewrite Z.geb_leb in E4; apply Z.leb_le in E4; lia|].
  bind_inv E. bind_inv E. destruct x0; inversion E. eauto.
Qed.

Lemma Maze_init_states env start gamma m :
  Maze_init env start gamma = Ok m -> exists d0, init_states env = Ok d0.
Proof. unfold Maze_init. intros E. bind_inv E. eauto. Qed.

(** C8 (as stated) fails: in the maze [[1, W]] the wall cell (0, 1) is not a
    state, yet [reward_function] returns its content [None] normally. *)
Lemma wall_reward_is_returned :
  exists m, maze_with_wall = Ok m /\ ~ fails_fast_outside_states m.
Proof.
  eexists. split; [vm_compute; reflexivity|].
  intros F. destruct (F (0, 1)%Z) as ((e & R) & _).
  - simpl. intros [H|[]]. discriminate H.
  - vm_compute in R. discriminate R.
Qed.

(** C8 (amended): for a state outside the valid state set of a constructed
    maze, [transition_model] raises [KeyError] at once; [reward_function]
    does not check its argument: it raises [IndexError] when the row index
    is outside the list's index range, and for a wall cell inside the grid
    it returns the cell content [None]. *)
Theorem maze_queries_outside_states env start gamma m s :
  Maze_init env start gamma = Ok m ->
  ~ In s (dict_keys (maze_states m)) ->
  (forall a b, Maze_transition_model m s a b = Raise KeyError) /\
  ((len env <= fst s \/ fst s < - len env)%Z ->
     Maze_reward_function m s = Raise IndexError) /\
  (forall row0, py_index env 0 = Ok row0 ->
     (0 <= fst s < len env)%Z -> (0 <= snd s < len row0)%Z ->
     Maze_reward_function m s = Ok None).
Proof.
  intros E Hs.
  destruct (Maze_init_inv _ _ _ E) as (He & _ & _ & _ & _ & Hvalid & _).
  split; [|split].
  - intros a b. unfold Maze_transition_model, dict_get.
    rewrite (dict_get_opt_notin _ _ Hs). reflexivity.
  - intros Hr. unfold Maze_reward_function. rewrite He.
    rewrite py_index_out_of_range by exact Hr. reflexivity.
  - intros row0 R0 H1 H2.
    destruct (Maze_init_states _ _ _ E) as (d0 & E0).
    destruct (init_states_total _ _ E0 R0 H1 H2) as ([|] & W).
    + destruct (is_wall_true_inside _ _ W R0 H1 H2) as (row & R & C).
      unfold Maze_reward_function. rewrite He, R; simpl. exact C.
    + exfalso. apply Hs, Hvalid, W.
Qed.

Lemma maze_queries_outside_states_witness :
  exists m, maze_with_wall = Ok m /\
    (forall a b, Maze_transition_model m (0, 1)%Z a b = Raise KeyError) /\
    ((len [[Some 1; None]] <= 0 \/ 0 < - len [[Some 1; None]])%Z ->
       Maze_reward_function m (0, 1)%Z = Raise IndexError) /\
    (forall row0, py_index [[Some 1; None]] 0 = Ok row0 ->
       (0 <= 0 < len [[Some 1; None]])%Z -> (0 <= 1 < len row0)%Z ->
       Maze_reward_function m (0, 1)%Z = Ok None).
Proof.
  eexists. split; [vm_compute; reflexivity|].
  apply (@maze_queries_outside_states [[Some 1; None]] (0, 0)%Z (1 # 2) _
           (0, 1)%Z).
  - vm_compute; reflexivity.
  - simpl. intros [H|[]]. discriminate H.
Defined.

(* ------------------------------------------------------------------ *)
(** ** The arg-max loop and the Bellman backup *)

Section ArgMax.
Variables (mdp : MarkovDecisionProcess) (s : State) (U : Utilities).

Let step (acc : option Q * option MazeActions) (action : MazeActions) :=
    let (max_expected_utility, best_action) := acc in
    expected_utility <- get_expected_utility mdp s action U ;;
    Ok (if exceeds expected_utility max_expected_utility
        then (Some expected_utility, Some action)
        else (max_expected_utility, best_action)).

  (** What the loop knows after running over [l] from the bound [mx]. *)
Lemma arg_max_fold l mx best mx' best' :
    foldM step l (mx, best) = Ok (mx', best') ->
    (forall a, In a l ->
       exists v m', get_expected_utility mdp s a U = Ok v /\
                    mx' = Some m' /\ v <= m') /\
    (forall m, mx = Some m -> exists m', mx' = Some m' /\ m <= m') /\
    ((mx' = mx /\ best' = best) \/
     exists a m', In a l /\ get_expected_utility mdp s a U = Ok m' /\
                  mx' = Some m' /\ best' = Some a).
  Proof.
    revert mx best. induction l as [|a l IH]; intros mx best E.
    - simpl in E. inversion E; subst. split; [|split].
      + intros a [].
      + intros m ->. exists m. split; auto. apply Qle_refl.
      + left; auto.
    - cbn [foldM] in E. bind_inv E. unfold step in E0. bind_inv E0.
      rename x0 into v, E1 into Ev. inversion E0; subst x; clear E0.
      destruct (exceeds v mx) eqn:X.
      + destruct (IH _ _ E) as (I1 & I2 & I3).
        destruct (I2 v eq_refl) as (m' & -> & Hv).
        split; [|split].
        * intros b [<-|Hb]; eauto.
        * intros m ->. simpl in X. apply Qltb_lt in X.
          exists m'. split; auto. lra.
        * right. destruct I3 as [[Q1 Q2]|(b & m1 & Hb & G & Q1 & Q2)].
          -- exists a, v. inversion Q1; subst. simpl; auto.
          -- exists b, m1. simpl; auto.
      + destruct mx as [m|]; [|discriminate X]. simpl in X.
        apply Qltb_ge in X.
        destruct (IH _ _ E) as (I1 & I2 & I3).
        destruct (I2 m eq_refl) as (m' & -> & Hm).
        split; [|split].
        * intros b [<-|Hb]; eauto. exists v, m'. repeat split; auto. lra.
        * intros m0 Q0. inversion Q0; subst. eauto.
        * destruct I3 as [[Q1 Q2]|(b & m1 & Hb & G & Q1 & Q2)]; auto.
          right. exists b, m1. simpl; auto.
  Qed.

Lemma best_action_loop_spec am mx best :
    best_action_loop mdp s U am = Ok (mx, best) ->
    match mx, best with
    | Some m, Some a =>
        In a (dict_keys am) /\ get_expected_utility mdp s a U = Ok m /\
        is_max_expected_utility mdp s U am m
    | None, None => am = []
    | _, _ => False
    end.
  Proof.
    unfold best_action_loop. intros E.
    destruct (arg_max_fold _ _ _ E) as (I1 & _ & I3).
    destruct I3 as [[-> ->]|(a & m & Ha & G & -> & ->)].
    - destruct am as [|[a om] am]; auto.
      destruct (I1 a) as (v & m' & _ & Q & _); [simpl; auto|]. discriminate.
    - repeat split; eauto.
      intros b Hb. destruct (I1 b Hb) as (v & m' & Gb & Q & L).
      inversion Q; subst. eauto.
  Qed.
End ArgMax.


(* ------------------------------------------------------------------ *)
(** ** One sweep of value iteration *)

Section Sweep.
Variables (mdp : MarkovDecisionProcess) (cur : Utilities).

Let sweep_step (acc : Utilities * Policy * Q) (state : State) :=
  let '(new_utilities, optimal_policy, max_utility_difference) := acc in
  '(updated_utility, best_action) <- bellman_equation mdp state cur ;;
  let new_utilities := dict_set new_utilities state updated_utility in
  let optimal_policy := dict_set optimal_policy state best_action in
  nu <- dict_get new_utilities state ;;
  cu <- dict_get cur state ;;
  Ok (new_utilities, optimal_policy,
      py_max max_utility_difference (Qabs (nu - cu))).

Lemma sweep_step_inv new pol delta s acc' :
  sweep_step (new, pol, delta) s = Ok acc' ->
  exists v a cu,
    bellman_equation mdp s cur = Ok (v, a) /\
    dict_get_opt cur s = Some cu /\
    acc' = (dict_set new s v, dict_set pol s a,
            py_max delta (Qabs (v - cu))).
Proof.
  unfold sweep_step. intros E. bind_inv E. destruct x as [v a].
  rewrite dict_get_set_same in E. cbn [bind] in E.
  bind_inv E. apply dict_get_Ok in E1. inversion E; subst.
  exists v, a, x. auto.
Qed.

(** After the loop every visited state holds its backup over [cur] and the
    greedy action that goes with it. *)
Lemma sweep_fold_values l acc new' pol' delta' s :
  foldM sweep_step l acc = Ok (new', pol', delta') -> In s l ->
  exists v a, bellman_equation mdp s cur = Ok (v, a) /\
              dict_get_opt new' s = Some v /\ dict_get_opt pol' s = Some a.
Proof.
  intros E Hs.
  set (P := fun acc : Utilities * Policy * Q =>
              exists v a, bellman_equation mdp s cur = Ok (v, a) /\
                          dict_get_opt (fst (fst acc)) s = Some v /\
                          dict_get_opt (snd (fst acc)) s = Some a).
  change (P (new', pol', delta')). revert E.
  apply (@foldM_established _ _ P sweep_step l s); auto.
  - intros [[new pol] d] acc' E. apply sweep_step_inv in E.
    destruct E as (v & a & cu & B & _ & ->). exists v, a. cbn [fst snd].
    repeat split; auto; apply dict_get_opt_set_same.
  - intros [[new pol] d] y acc' (v & a & B & N & Pl) E.
    apply sweep_step_inv in E.
    destruct E as (v' & a' & cu & B' & _ & ->). cbn [fst snd] in *.
    destruct (keqb y s) eqn:K.
    + apply keqb_eq in K; subst y. exists v', a'.
      repeat split; auto; apply dict_get_opt_set_same.
    + assert (y <> s) as D
          by (intros ->; rewrite keqb_refl in K; discriminate).
      exists v, a. cbn [fst snd].
      rewrite (dict_get_opt_set_other new v' D),
              (dict_get_opt_set_other pol a' D). auto.
Qed.

(** The residual accumulated by the loop. *)
Lemma sweep_fold_residual l new pol delta new' pol' delta' :
  foldM sweep_step l (new, pol, delta) = Ok (new', pol', delta') ->
  delta <= delta' /\
  (forall s, In s l ->
     exists v a cu, bellman_equation mdp s cur = Ok (v, a) /\
                    dict_get_opt cur s = Some cu /\
                    Qabs (v - cu) <= delta') /\
  (delta' = delta \/
   exists s v a cu, In s l /\ bellman_equation mdp s cur = Ok (v, a) /\
                    dict_get_opt cur s = Some cu /\
                    delta' = Qabs (v - cu)).
Proof.
  revert new pol delta. induction l as [|s l IH]; intros new pol delta E.
  - simpl in E. inversion E; subst. split; [apply Qle_refl|].
    split; [intros s []|auto].
  - cbn [foldM] in E. bind_inv E. apply sweep_step_inv in E0.
    destruct E0 as (v & a & cu & B & C & ->).
    destruct (IH _ _ _ E) as (I1 & I2 & I3).
    destruct (py_max_spec delta (Qabs (v - cu))) as (M1 & M2 & M3).
    split; [lra|]. split.
    + intros t [<-|Ht]; auto. exists v, a, cu. repeat split; auto. lra.
    + destruct I3 as [->|(t & v' & a' & cu' & Ht & ?)].
      * destruct M3 as [->| ->]; auto.
        right. exists s, v, a, cu. simpl; auto.
      * right. exists t, v', a', cu'. simpl; tauto.
Qed.

Lemma sweep_fold_NoDup l acc new' pol' delta' :
  foldM sweep_step l acc = Ok (new', pol', delta') ->
  NoDup (dict_keys (fst (fst acc))) -> NoDup (dict_keys new').
Proof.
  intros E N.
  set (P := fun acc : Utilities * Policy * Q =>
              NoDup (dict_keys (fst (fst acc)))).
  change (P (new', pol', delta')). revert E.
  apply (@foldM_invariant _ _ P); auto.
  intros [[new pol] d] y acc' _ HP E. apply sweep_step_inv in E.
  destruct E as (v & a & cu & _ & _ & ->). unfold P in *; cbn [fst snd] in *.
  apply dict_keys_set_NoDup; auto.
Qed.
End Sweep.

(** The facts about one loop body that the solver theorems rest on. *)
Lemma vi_sweep_inv mdp st st' delta :
  vi_sweep mdp st = Ok (st', delta) ->
  let cur := vi_current_utilities st' in
  cur = dict_update (vi_current_utilities st) (vi_new_utilities st) /\
  (forall s, In s (dict_keys (states mdp)) ->
     exists v a, bellman_equation mdp s cur = Ok (v, a) /\
                 dict_get_opt (vi_new_utilities st') s = Some v /\
                 dict_get_opt (vi_optimal_policy st') s = Some a) /\
  (forall s, In s (dict_keys (states mdp)) ->
     exists v a cu, bellman_equation mdp s cur = Ok (v, a) /\
                    dict_get_opt cur s = Some cu /\
                    Qabs (v - cu) <= delta) /\
  (delta = 0 \/
   exists s v a cu, In s (dict_keys (states mdp)) /\
                    bellman_equation mdp s cur = Ok (v, a) /\
                    dict_get_opt cur s = Some cu /\
                    delta = Qabs (v - cu)) /\
  0 <= delta /\
  (NoDup (dict_keys (vi_new_utilities st)) ->
   NoDup (dict_keys (vi_new_utilities st'))).
Proof.
  unfold vi_sweep. intros E. bind_inv E. rename x into hist.
  bind_inv E. destruct x as [[new pol] d]. inversion E; subst; clear E.
  cbn [vi_current_utilities vi_new_utilities vi_optimal_policy].
  split; [reflexivity|]. split.
  - intros s Hs. eapply sweep_fold_values; eauto.
  - destruct (sweep_fold_residual _ _ _ _ _ _ E1) as (I1 & I2 & I3).
    split; [exact I2|]. split; [exact I3|]. split; [exact I1|].
    intros N. eapply sweep_fold_NoDup in E1; eauto.
Qed.

(* ------------------------------------------------------------------ *)
(** ** The loop of value iteration *)

Lemma fold_left_invariant {A S} (P : S -> Prop) (f : S -> A -> S)
    (l : list A) (s : S) :
  P s -> (forall s x, In x l -> P s -> P (f s x)) -> P (fold_left f l s).
Proof.
  revert s; induction l as [|x l IH]; intros s Hs Hstep; simpl; auto.
  apply IH; [apply Hstep; simpl; auto|].
  intros; apply Hstep; simpl; auto.
Qed.

Lemma fold_left_established {A S} (P : S -> Prop) (f : S -> A -> S)
    (l : list A) (x : A) (s : S) :
  In x l -> (forall s, P (f s x)) -> (forall s y, P s -> P (f s y)) ->
  P (fold_left f l s).
Proof.
  revert s; induction l as [|y l IH]; intros s Hin Hx Hkeep; simpl.
  - destruct Hin.
  - destruct Hin as [->|Hin]; auto.
    apply fold_left_invariant; auto.
Qed.

Lemma vi_init_NoDup mdp : NoDup (dict_keys (vi_new_utilities (vi_init mdp))).
Proof.
  unfold vi_init. apply fold_left_invariant; simpl.
  - constructor.
  - intros st s _ N. apply dict_keys_set_NoDup, N.
Qed.

(** The loop stops at the first sweep whose residual is below the
    threshold, and only there. *)
Lemma vi_loop_stops_at_first_small_residual mdp max_error threshold :
  stopping_threshold mdp max_error = Ok threshold ->
  forall fuel st st',
    vi_loop fuel mdp max_error st = Ok st' <->
    exists n delta,
      (n < fuel)%nat /\
      vi_iterate n mdp st = Ok (st', delta) /\
      delta < threshold /\
      forall k, (k < n)%nat ->
        exists stk dk, vi_iterate k mdp st = Ok (stk, dk) /\
                       ~ dk < threshold.
Proof.
  intros T. induction fuel as [|fuel IH]; intros st st'.
  - simpl. split; [discriminate|]. intros (n & d & Hn & _). lia.
  - cbn [vi_loop]. rewrite T. split.
    + intros E. bind_inv E. destruct x as [st1 d1]. cbn [bind] in E.
      destruct (Qltb d1 threshold) eqn:L.
      * inversion E; subst. apply Qltb_lt in L.
        exists 0%nat, d1. repeat split; auto; [lia|]. intros k Hk; lia.
      * apply Qltb_ge in L. apply IH in E.
        destruct E as (n & d & Hn & I & Hd & Hk).
        exists (S n), d. split; [lia|]. cbn [vi_iterate]. rewrite E0.
        cbn [bind]. repeat split; auto.
        intros [|k] Hlt.
        -- exists st1, d1. split; auto. lra.
        -- cbn [vi_iterate]. rewrite E0. cbn [bind]. apply Hk. lia.
    + intros (n & d & Hn & I & Hd & Hk). destruct n as [|n].
      * cbn [vi_iterate] in I. rewrite I. cbn [bind].
        apply Qltb_lt in Hd. rewrite Hd. reflexivity.
      * destruct (Hk 0%nat) as (st1 & d1 & I1 & N1); [lia|].
        cbn [vi_iterate] in I1, I. rewrite I1 in *. cbn [bind] in *.
        destruct (Qltb d1 threshold) eqn:L;
          [apply Qltb_lt in L; contradiction|].
        apply IH. exists n, d. split; [lia|]. repeat split; auto.
        intros k Hlt. destruct (Hk (S k)) as (stk & dk & Ik & Nk); [lia|].
        cbn [vi_iterate] in Ik. rewrite I1 in Ik. cbn [bind] in Ik. eauto.
Qed.

Lemma value_iteration_inv fuel mdp max_error res :
  value_iteration fuel mdp max_error = Ok res ->
  exists st,
    vi_loop fuel mdp max_error (vi_init mdp) = Ok st /\
    converged_utilities res = vi_current_utilities st /\
    optimal_policy res = vi_optimal_policy st /\
    iteration_utilities res = vi_all_iteration_utilities st /\
    history_length mdp (vi_all_iteration_utilities st)
      = Ok (num_iterations res).
Proof.
  unfold value_iteration. intros E. bind_inv E. bind_inv E.
  inversion E; subst; simpl. eauto 10.
Qed.

(* ------------------------------------------------------------------ *)
(** ** The policies of policy iteration *)

Lemma pi_init_hasChanged mdp : pi_hasChanged (pi_init mdp) = true.
Proof.
  unfold pi_init. apply fold_left_invariant; simpl; auto.
Qed.

Lemma policy_iteration_inv fuel mdp k res :
  policy_iteration fuel mdp k = Ok res ->
  exists st,
    pi_loop fuel mdp k (pi_init mdp) = Ok st /\
    converged_utilities res = pi_current_utilities st /\
    optimal_policy res = pi_policy st /\
    iteration_utilities res = pi_all_iteration_utilities st /\
    history_length mdp (pi_all_iteration_utilities st)
      = Ok (num_iterations res).
Proof.
  unfold policy_iteration. intros E. bind_inv E. bind_inv E.
  inversion E; subst; simpl. eauto 10.
Qed.

(* ------------------------------------------------------------------ *)
(** ** Sweeps over a constructed maze never raise *)

(** A loop whose steps succeed on every state satisfying an invariant
    succeeds. *)
Lemma foldM_total {A S} (P : S -> Prop) (f : S -> A -> Result S)
    (l : list A) (s : S) :
  P s ->
  (forall s x, In x l -> P s -> exists s', f s x = Ok s' /\ P s') ->
  exists r, foldM f l s = Ok r /\ P r.
Proof.
  revert s; induction l as [|x l IH]; intros s Hs Hstep; simpl; eauto.
  destruct (Hstep s x) as (s' & E & Hs'); simpl; auto.
  rewrite E; simpl. apply IH; auto.
  intros; apply Hstep; simpl; auto.
Qed.

Section MazeSweeps.
Variables (env : Env) (start : State) (gamma : Q) (m : Maze).
Hypothesis Hm : Maze_init env start gamma = Ok m.

Lemma maze_reward_defined s :
  In s (dict_keys (maze_states m)) ->
  exists r, Maze_reward_function m s = Ok (Some r).
Proof.
  intros Hs.
  destruct (Maze_init_inv _ _ _ Hm) as (He & _ & _ & _ & _ & Hvalid & _).
  apply Hvalid, is_wall_false_iff in Hs.
  destruct Hs as (row0 & row & r & _ & _ & _ & R & C).
  exists r. unfold Maze_reward_function. rewrite He, R; simpl. exact C.
Qed.

Lemma maze_expected_utility_defined s a U :
  In s (dict_keys (maze_states m)) -> defined_on_states m U ->
  exists v, get_expected_utility (Maze_as_mdp m) s a U = Ok v.
Proof.
  intros Hs HU.
  destruct (maze_table_entry _ _ _ _ Hm Hs)
    as (am & resolve & T & R & _ & V & _ & A).
  destruct (HU _ (V UP)) as (uU & EU), (HU _ (V DOWN)) as (uD & ED),
           (HU _ (V LEFT)) as (uL & EL), (HU _ (V RIGHT)) as (uR & ER).
  unfold get_expected_utility, dict_get.
  cbn [states transition_model Maze_as_mdp]. unfold Maze_transition_model.
  unfold dict_get. rewrite T. cbn [bind]. rewrite A. cbn [bind].
  destruct a; cbn [drift_outcomes foldM next_state bind dict_get_opt keqb
                   MazeActions_EqKey MazeActions_eqb probability];
    rewrite ?EU, ?ED, ?EL, ?ER;
    cbn [drift_outcomes foldM next_state bind dict_get_opt keqb
         MazeActions_EqKey MazeActions_eqb probability];
    eexists; reflexivity.
Qed.

Lemma maze_bellman_defined s U :
  In s (dict_keys (maze_states m)) -> defined_on_states m U ->
  exists v a, bellman_equation (Maze_as_mdp m) s U = Ok (v, a).
Proof.
  intros Hs HU.
  destruct (maze_table_entry _ _ _ _ Hm Hs)
    as (am & resolve & T & _ & _ & _ & K & _).
  destruct (@maze_reward_defined s Hs) as (r & Rw).
  assert (exists acc, best_action_loop (Maze_as_mdp m) s U am = Ok acc)
    as ([mx best] & L).
  { unfold best_action_loop.
    match goal with
    | |- exists acc, foldM ?f ?l ?a = Ok acc =>
        destruct (@foldM_total _ _ (fun _ => True) f l a I) as (acc & E & _)
    end; eauto.
    intros [mx best] a _ _.
    destruct (@maze_expected_utility_defined s a U Hs HU) as (v & ->).
    cbn [bind]. eauto. }
  pose proof (best_action_loop_spec _ _ _ _ L) as Sp.
  unfold bellman_equation, dict_get.
  cbn [states reward_function Maze_as_mdp] in *. rewrite T, Rw. cbn [bind].
  rewrite L. cbn [bind].
  destruct mx as [mx|], best as [best|]; try contradiction; eauto.
  subst am. discriminate K.
Qed.
Lemma defined_on_states_set {V} (d : dict State V) k v :
  defined_on_states m d -> defined_on_states m (dict_set d k v).
Proof.
  intros D s Hs. destruct (keqb k s) eqn:K.
  - apply keqb_eq in K; subst. exists v. apply dict_get_opt_set_same.
  - destruct (D s Hs) as (u & G). exists u. rewrite <- G.
    apply dict_get_opt_set_other.
    intros ->; rewrite keqb_refl in K; discriminate.
Qed.

Lemma maze_vi_sweep_defined st :
  vi_ready m st ->
  exists st' delta,
    vi_sweep (Maze_as_mdp m) st = Ok (st', delta) /\ vi_ready m st'.
Proof.
  intros (Dn & Nn & Dh). unfold vi_sweep.
  set (cur := dict_update (vi_current_utilities st) (vi_new_utilities st)).
  assert (Dc : defined_on_states m cur).
  { intros s Hs. destruct (Dn s Hs) as (u & G). exists u.
    unfold cur. rewrite dict_update_get by exact Nn. rewrite G.
    reflexivity. }
  cbn [states Maze_as_mdp].
  match goal with
  | |- exists st' delta, bind (foldM ?f ?l ?a) _ = _ /\ _ =>
      destruct (@foldM_total _ _ (fun h : History => defined_on_states m h)
                  f l a Dh) as (hist & Eh & Dh')
  end.
  { intros h s Hs Hh. destruct (Hh s Hs) as (l & Gl).
    destruct (Dc s Hs) as (u & Gu). unfold dict_get. rewrite Gl, Gu.
    cbn [bind]. eexists. split; [reflexivity|].
    apply defined_on_states_set, Hh. }
  rewrite Eh. cbn [bind].
  match goal with
  | |- exists st' delta, bind (foldM ?f ?l ?a) _ = _ /\ _ =>
      destruct (@foldM_total _ _
                  (fun acc : Utilities * Policy * Q =>
                     defined_on_states m (fst (fst acc)) /\
                     NoDup (dict_keys (fst (fst acc))))
                  f l a (conj Dn Nn)) as ([[new pol] d] & En & Dn' & Nn')
  end.
  { intros [[new pol] d] s Hs (D1 & N1). cbn [fst snd] in *.
    destruct (@maze_bellman_defined s cur Hs Dc) as (v & a & ->).
    cbn [bind]. rewrite dict_get_set_same. cbn [bind].
    destruct (Dc s Hs) as (u & Gu). unfold dict_get. rewrite Gu.
    cbn [bind]. eexists. split; [reflexivity|]. cbn [fst snd]. split.
    - apply defined_on_states_set, D1.
    - apply dict_keys_set_NoDup, N1. }
  rewrite En. cbn [bind]. eexists _, _. split; [reflexivity|].
  split; [|split]; assumption.
Qed.

Lemma maze_vi_init_ready : vi_ready m (vi_init (Maze_as_mdp m)).
Proof.
  split; [|split].
  - intros s Hs. unfold vi_init. cbn [states Maze_as_mdp].
    apply (@fold_left_established _ _
             (fun st => exists v, dict_get_opt (vi_new_utilities st) s
                                  = Some v) _ _ s); auto.
    + intros st. simpl. eexists. apply dict_get_opt_set_same.
    + intros st y (v & G). simpl. destruct (keqb y s) eqn:K.
      * apply keqb_eq in K; subst. eexists. apply dict_get_opt_set_same.
      * exists v. rewrite <- G. apply dict_get_opt_set_other.
        intros ->; rewrite keqb_refl in K; discriminate.
  - apply vi_init_NoDup.
  - intros s Hs. unfold vi_init. cbn [states Maze_as_mdp].
    apply (@fold_left_established _ _
             (fun st => exists v,
                dict_get_opt (vi_all_iteration_utilities st) s = Some v)
             _ _ s); auto.
    + intros st. simpl. eexists. apply dict_get_opt_set_same.
    + intros st y (v & G). simpl. destruct (keqb y s) eqn:K.
      * apply keqb_eq in K; subst. eexists. apply dict_get_opt_set_same.
      * exists v. rewrite <- G. apply dict_get_opt_set_other.
        intros ->; rewrite keqb_refl in K; discriminate.
Qed.
End MazeSweeps.

(* ------------------------------------------------------------------ *)
(** ** Value iteration without discounting *)

Lemma threshold_without_discounting mdp max_error :
  1 <= discount_factor mdp -> 0 <= max_error ->
  exists threshold,
    stopping_threshold mdp max_error = Ok threshold /\ threshold <= 0.
Proof.
  intros G Eps. unfold stopping_threshold, py_div.
  destruct (Qeq_bool (discount_factor mdp) 0) eqn:Z.
  - apply Qeq_bool_iff in Z. lra.
  - eexists. split; [reflexivity|].
    assert (0 < discount_factor mdp) as Pos by lra.
    apply Qle_shift_div_r; auto.
    assert (max_error * (1 - discount_factor mdp) <= 0) as L.
    { nra. }
    lra.
Qed.

Lemma vi_loop_never_stops fuel mdp max_error threshold st st' :
  stopping_threshold mdp max_error = Ok threshold -> threshold <= 0 ->
  vi_loop fuel mdp max_error st <> Ok st'.
Proof.
  intros T Neg. revert st. induction fuel as [|fuel IH]; intros st E;
    simpl in E; [discriminate|].
  bind_inv E. destruct x as [st1 d]. rewrite T in E. cbn [bind] in E.
  destruct (vi_sweep_inv _ _ E0) as (_ & _ & _ & _ & Pos & _).
  destruct (Qltb d threshold) eqn:L.
  - apply Qltb_lt in L. lra.
  - apply (IH _ E).
Qed.

Lemma maze_vi_loop_runs_forever env start gamma m max_error threshold :
  Maze_init env start gamma = Ok m ->
  stopping_threshold (Maze_as_mdp m) max_error = Ok threshold ->
  threshold <= 0 ->
  forall fuel st, vi_ready m st ->
    vi_loop fuel (Maze_as_mdp m) max_error st = OutOfFuel.
Proof.
  intros Hm T Neg. induction fuel as [|fuel IH]; intros st R; simpl; auto.
  destruct (@maze_vi_sweep_defined env start gamma m Hm st R)
    as (st' & d & E & R').
  rewrite E, T. cbn [bind].
  destruct (vi_sweep_inv _ _ E) as (_ & _ & _ & _ & Pos & _).
  destruct (Qltb d threshold) eqn:L; auto.
  apply Qltb_lt in L. lra.
Qed.

(** C3 (as stated) fails: with discount factor 1 on the 1 x 1 grid [[1]]
    the solver does not raise; after two sweeps it is still looping. *)
Lemma discount_one_is_not_rejected : ~ rejects_before_loop (unit_mdp 1 1) 1.
Proof.
  intros F. destruct (F 2%nat) as (e & E). vm_compute in E. discriminate E.
Qed.

(** C3 (amended): with a discount factor >= 1 and a tolerance >= 0,
    [value_iteration] checks nothing before its loop: the threshold
    max_error * (1 - gamma) / gamma is computed without a division by zero
    and is <= 0, so the stopping test never succeeds and no run returns a
    result; on a constructed grid maze no sweep raises, so the loop runs
    for as long as it is given fuel. *)
Theorem value_iteration_without_discounting mdp max_error :
  1 <= discount_factor mdp -> 0 <= max_error ->
  (exists threshold,
     stopping_threshold mdp max_error = Ok threshold /\ threshold <= 0) /\
  (forall fuel res, value_iteration fuel mdp max_error <> Ok res) /\
  (forall env start m,
     Maze_init env start (discount_factor mdp) = Ok m ->
     mdp = Maze_as_mdp m ->
     forall fuel, value_iteration fuel mdp max_error = OutOfFuel).
Proof.
  intros G Eps.
  destruct (@threshold_without_discounting mdp max_error G Eps)
    as (threshold & T & Neg).
  split; [eauto|]. split.
  - intros fuel res E. apply value_iteration_inv in E.
    destruct E as (st & L & _). eapply vi_loop_never_stops; eauto.
  - intros env start m Hm -> fuel. unfold value_iteration.
    rewrite (@maze_vi_loop_runs_forever env start _ m max_error threshold
               Hm T Neg fuel _ (maze_vi_init_ready m)).
    reflexivity.
Qed.

Lemma value_iteration_without_discounting_witness :
  1 <= discount_factor (unit_mdp 1 1) /\ 0 <= 1 /\
  (exists threshold,
     stopping_threshold (unit_mdp 1 1) 1 = Ok threshold /\ threshold <= 0) /\
  (forall fuel res, value_iteration fuel (unit_mdp 1 1) 1 <> Ok res) /\
  (forall env start m,
     Maze_init env start (discount_factor (unit_mdp 1 1)) = Ok m ->
     unit_mdp 1 1 = Maze_as_mdp m ->
     forall fuel, value_iteration fuel (unit_mdp 1 1) 1 = OutOfFuel).
Proof.
  assert (G : 1 <= discount_factor (unit_mdp 1 1))
    by (vm_compute; discriminate).
  assert (Eps : 0 <= 1) by (vm_compute; discriminate).
  split; [exact G|]. split; [exact Eps|].
  apply (@value_iteration_without_discounting (unit_mdp 1 1) 1 G Eps).
Defined.

(* ------------------------------------------------------------------ *)
(** ** The reported iteration count of policy iteration *)

(** C4 (evaluation at the failing input): on the 1 x 1 grid [[1]] with
    discount 1/2 and one evaluation round per improvement step,
    [policy_iteration] stops after a single outer loop; the local counter
    holds the 1 evaluation round performed, but the returned
    [num_iterations] is 2, the length of the history [0, U1], which
    includes the seeded zeroth entry. *)
Theorem policy_iteration_counts_the_seed :
  exists st res l,
    pi_loop 1 (unit_mdp 1 (1 # 2)) 1 (pi_init (unit_mdp 1 (1 # 2))) = Ok st /\
    pi_num_iterations st = 1%Z /\
    policy_iteration 1 (unit_mdp 1 (1 # 2)) 1 = Ok res /\
    num_iterations res = 2%Z /\
    dict_get_opt (iteration_utilities res) (0, 0)%Z = Some l /\
    len l = 2%Z.
Proof.
  eexists _, _, _.
  split; [vm_compute; reflexivity|].
  split; [reflexivity|].
  split; [vm_compute; reflexivity|].
  split; [reflexivity|].
  split; reflexivity.
Qed.

(* ------------------------------------------------------------------ *)
(** ** The single-state maze *)

(** C7 (evaluation at the failing input): on the 1 x 1 grid [[1]] with
    discount 1/2 every stored outcome stays in (0, 0) with total
    probability 1, and [value_iteration] with tolerance 3/2 terminates
    after one sweep; it returns the iterate before that sweep, 0, whose
    distance to r / (1 - gamma) = 2 exceeds the tolerance. *)
Theorem value_iteration_returns_previous_iterate :
  (forall a, exists am om,
     dict_get_opt (states (unit_mdp 1 (1 # 2))) (0, 0)%Z = Some am /\
     dict_get_opt am a = Some om /\
     total_probability om == 1 /\
     forall b o, In (b, o) om -> next_state o = (0, 0)%Z) /\
  exists res u,
    value_iteration 1 (unit_mdp 1 (1 # 2)) (3 # 2) = Ok res /\
    dict_get_opt (converged_utilities res) (0, 0)%Z = Some u /\
    u = 0 /\
    ~ Qabs (u - 1 / (1 - (1 # 2))) <= 3 # 2.
Proof.
  split.
  - intros a.
    destruct a; eexists _, _;
      (split; [vm_compute; reflexivity|]);
      (split; [vm_compute; reflexivity|]);
      (split; [reflexivity|]);
      intros b o Hin; simpl in Hin; destruct Hin as [H|[H|[H|[]]]];
      inversion H; reflexivity.
  - eexists _, _. split; [vm_compute; reflexivity|].
    split; [reflexivity|]. split; [reflexivity|].
    intros H. apply Qle_bool_iff in H. vm_compute in H. discriminate H.
Qed.

(* ------------------------------------------------------------------ *)
(** ** The iteration history of value iteration *)

Lemma dict_get_opt_lookup_cases {V} (d : dict State V) k k' v :
  dict_get_opt (dict_set d k v) k' =
  if keqb k k' then Some v else dict_get_opt d k'.
Proof.
  destruct (keqb k k') eqn:K.
  - apply keqb_eq in K; subst. apply dict_get_opt_set_same.
  - apply dict_get_opt_set_other.
    intros ->; rewrite keqb_refl in K; discriminate.
Qed.

(** [for state in states: h[state].append(cur[state])] over distinct
    states appends exactly one entry per state. *)
Lemma append_fold (cur : Utilities) l (h h' : History) :
  NoDup l ->
  foldM (fun (h : History) state =>
           l <- dict_get h state ;;
           u <- dict_get cur state ;;
           Ok (dict_set h state (l ++ [u]))) l h = Ok h' ->
  (forall s, In s l ->
     exists old u, dict_get_opt h s = Some old /\
                   dict_get_opt cur s = Some u /\
                   dict_get_opt h' s = Some (old ++ [u])) /\
  (forall s, ~ In s l -> dict_get_opt h' s = dict_get_opt h s).
Proof.
  revert h. induction l as [|x l IH]; intros h N E.
  - simpl in E. inversion E; subst. split; [intros s []|auto].
  - cbn [foldM] in E. bind_inv E. bind_inv E0. bind_inv E0.
    inversion E0; subst; clear E0. apply dict_get_Ok in E1, E2.
    inversion N as [|? ? Hx N']; subst.
    destruct (IH _ N' E) as (I1 & I2). split.
    + intros s [<-|Hs].
      * exists x1, x2. repeat split; auto.
        rewrite (I2 x Hx). apply dict_get_opt_set_same.
      * destruct (I1 s Hs) as (old & u & G & C & G').
        exists old, u. repeat split; auto.
        rewrite <- G. symmetry. apply dict_get_opt_set_other.
        intros ->; contradiction.
    + intros s Hs. rewrite I2 by (intros H; apply Hs; simpl; auto).
      apply dict_get_opt_set_other. intros ->; apply Hs; simpl; auto.
Qed.

Lemma vi_sweep_history mdp st st' delta :
  NoDup (dict_keys (states mdp)) ->
  vi_sweep mdp st = Ok (st', delta) ->
  (forall s, In s (dict_keys (states mdp)) ->
     exists old u,
       dict_get_opt (vi_all_iteration_utilities st) s = Some old /\
       dict_get_opt (vi_current_utilities st') s = Some u /\
       dict_get_opt (vi_all_iteration_utilities st') s = Some (old ++ [u])) /\
  (forall s, ~ In s (dict_keys (states mdp)) ->
     dict_get_opt (vi_all_iteration_utilities st') s =
     dict_get_opt (vi_all_iteration_utilities st) s).
Proof.
  intros N E. unfold vi_sweep in E. bind_inv E. rename x into hist.
  bind_inv E. destruct x as [[new pol] d]. inversion E; subst; clear E.
  cbn [vi_current_utilities vi_all_iteration_utilities].
  eapply append_fold; eauto.
Qed.

Lemma vi_init_entries mdp s :
  In s (dict_keys (states mdp)) ->
  dict_get_opt (vi_new_utilities (vi_init mdp)) s = Some 0 /\
  dict_get_opt (vi_all_iteration_utilities (vi_init mdp)) s = Some [] /\
  dict_get_opt (vi_optimal_policy (vi_init mdp)) s = Some None.
Proof.
  intros Hs. unfold vi_init.
  apply (@fold_left_established _ _
           (fun st =>
              dict_get_opt (vi_new_utilities st) s = Some 0 /\
              dict_get_opt (vi_all_iteration_utilities st) s = Some [] /\
              dict_get_opt (vi_optimal_policy st) s = Some None) _ _ s);
    auto.
  - intros st. simpl. repeat split; apply dict_get_opt_set_same.
  - intros st y (A & B & C). simpl.
    rewrite !dict_get_opt_lookup_cases. destruct (keqb y s); auto.
Qed.

Lemma vi_init_outside mdp s :
  ~ In s (dict_keys (states mdp)) ->
  dict_get_opt (vi_all_iteration_utilities (vi_init mdp)) s = None.
Proof.
  intros Hs. unfold vi_init.
  apply (@fold_left_invariant _ _
           (fun st => dict_get_opt (vi_all_iteration_utilities st) s = None)).
  - reflexivity.
  - intros st y Hy G. simpl. rewrite dict_get_opt_lookup_cases.
    destruct (keqb y s) eqn:K; auto.
    apply keqb_eq in K; subst; contradiction.
Qed.

(** The history after sweep [n]: one entry per sweep, entry [i] being the
    utility the state had in the snapshot of sweep [i]. *)
Lemma vi_iterate_history mdp :
  NoDup (dict_keys (states mdp)) ->
  forall n st0 st delta s l0,
    vi_iterate n mdp st0 = Ok (st, delta) ->
    In s (dict_keys (states mdp)) ->
    dict_get_opt (vi_all_iteration_utilities st0) s = Some l0 ->
    exists l,
      dict_get_opt (vi_all_iteration_utilities st) s = Some (l0 ++ l) /\
      length l = S n /\
      forall i, (i <= n)%nat ->
        exists sti di u,
          vi_iterate i mdp st0 = Ok (sti, di) /\
          dict_get_opt (vi_current_utilities sti) s = Some u /\
          nth_error l i = Some u.
Proof.
  intros N. induction n as [|n IH]; intros st0 st delta s l0 E Hs G.
  - cbn [vi_iterate] in E.
    destruct (@vi_sweep_history _ _ _ _ N E) as (H1 & _).
    destruct (H1 s Hs) as (old & u & G0 & C & G').
    rewrite G in G0. inversion G0; subst old.
    exists [u]. repeat split; auto.
    intros i Hi. assert (i = 0)%nat as -> by lia.
    exists st, delta, u. auto.
  - cbn [vi_iterate] in E. bind_inv E. destruct x as [st1 d1].
    destruct (@vi_sweep_history _ _ _ _ N E0) as (H1 & _).
    destruct (H1 s Hs) as (old & u & G0 & C & G').
    rewrite G in G0. inversion G0; subst old.
    destruct (IH _ _ _ _ _ E Hs G') as (l & Gl & Len & Nth).
    exists (u :: l). rewrite <- app_assoc in Gl. split; [exact Gl|].
    split; [simpl; lia|].
    intros [|i] Hi.
    + exists st1, d1, u. auto.
    + destruct (Nth i) as (sti & di & ui & Ei & Ci & Ni); [lia|].
      exists sti, di, ui. cbn [vi_iterate]. rewrite E0. cbn [bind]. auto.
Qed.

Lemma vi_loop_is_an_iterate fuel mdp max_error st0 st :
  vi_loop fuel mdp max_error st0 = Ok st ->
  exists n delta threshold,
    (n < fuel)%nat /\ vi_iterate n mdp st0 = Ok (st, delta) /\
    stopping_threshold mdp max_error = Ok threshold /\ delta < threshold.
Proof.
  revert st0. induction fuel as [|fuel IH]; intros st0 E; simpl in E.
  - discriminate.
  - bind_inv E. destruct x as [st1 d1]. bind_inv E. rename x into thr.
    destruct (Qltb d1 thr) eqn:L.
    + inversion E; subst. apply Qltb_lt in L.
      exists 0%nat, d1, thr. repeat split; auto. lia.
    + destruct (IH _ E) as (n & d & thr' & Hn & I & T & Hd).
      exists (S n), d, thr'. repeat split; auto; [lia|].
      cbn [vi_iterate]. rewrite E0. cbn [bind]. exact I.
Qed.

Lemma State_eq_dec (a b : State) : {a = b} + {a <> b}.
Proof. decide equality; apply Z.eq_dec. Defined.

Lemma vi_iterate_outside mdp :
  NoDup (dict_keys (states mdp)) ->
  forall n st0 st delta s,
    vi_iterate n mdp st0 = Ok (st, delta) ->
    ~ In s (dict_keys (states mdp)) ->
    dict_get_opt (vi_all_iteration_utilities st) s =
    dict_get_opt (vi_all_iteration_utilities st0) s.
Proof.
  intros N. induction n as [|n IH]; intros st0 st delta s E Hs.
  - cbn [vi_iterate] in E. apply (@vi_sweep_history _ _ _ _ N E), Hs.
  - cbn [vi_iterate] in E. bind_inv E. destruct x as [st1 d1].
    rewrite (IH _ _ _ _ E Hs). apply (@vi_sweep_history _ _ _ _ N E0), Hs.
Qed.

(** X1: a terminating run of [value_iteration] has stopped at the first
    sweep whose residual is below the threshold; when that is sweep number
    n (counted from 0) the run returns the snapshot of that sweep and
    reports [num_iterations] = n + 1; every state's history has that many
    entries, entry 0 is the initial utility 0 and the last entry is the
    returned utility. *)
Theorem value_iteration_history fuel mdp max_error res :
  NoDup (dict_keys (states mdp)) ->
  value_iteration fuel mdp max_error = Ok res ->
  exists n st delta threshold,
    (n < fuel)%nat /\
    stopping_threshold mdp max_error = Ok threshold /\
    vi_iterate n mdp (vi_init mdp) = Ok (st, delta) /\
    delta < threshold /\
    (forall k, (k < n)%nat ->
       exists stk dk,
         vi_iterate k mdp (vi_init mdp) = Ok (stk, dk) /\
         ~ dk < threshold) /\
    converged_utilities res = vi_current_utilities st /\
    iteration_utilities res = vi_all_iteration_utilities st /\
    num_iterations res = Z.of_nat (S n) /\
    forall s, In s (dict_keys (states mdp)) ->
      exists l,
        dict_get_opt (iteration_utilities res) s = Some l /\
        length l = S n /\
        nth_error l 0 = Some 0 /\
        nth_error l n = dict_get_opt (converged_utilities res) s.
Proof.
  intros N E. apply value_iteration_inv in E.
  destruct E as (st & L & Cu & _ & Hi & HL).
  destruct (@vi_loop_is_an_iterate _ _ _ _ _ L) as (n0 & d0 & thr & _ & _ & T & _).
  apply (vi_loop_stops_at_first_small_residual _ _ T) in L.
  destruct L as (n & d & Hn & I & Small & First).
  rewrite Cu, Hi.
  assert (Hist : forall s, In s (dict_keys (states mdp)) ->
            exists l,
              dict_get_opt (vi_all_iteration_utilities st) s = Some l /\
              length l = S n /\
              nth_error l 0 = Some 0 /\
              nth_error l n = dict_get_opt (vi_current_utilities st) s).
  { intros s Hs. destruct (@vi_init_entries mdp s Hs) as (Hnew & Hh & _).
    destruct (@vi_iterate_history _ N _ _ _ _ _ _ I Hs Hh) as (l & Gl & Len & Nth).
    exists l. simpl in Gl. repeat split; auto.
    - destruct (Nth 0%nat) as (st0 & d1 & u & E0 & C0 & N0); [lia|].
      rewrite N0. f_equal. cbn [vi_iterate] in E0.
      destruct (@vi_sweep_inv _ _ _ _ E0) as (Cur & _). simpl in Cur.
      rewrite Cur, dict_update_get in C0 by apply vi_init_NoDup.
      rewrite Hnew in C0. congruence.
    - destruct (Nth n) as (stn & dn & u & En & Cn & Nn); [lia|].
      rewrite I in En. inversion En; subst. congruence. }
  exists n, st, d, thr.
  split; [exact Hn|]. split; [exact T|]. split; [exact I|].
  split; [exact Small|]. split; [exact First|].
  split; [reflexivity|]. split; [reflexivity|]. split; [|exact Hist].
  unfold history_length in HL.
  destruct (dict_get_opt (vi_all_iteration_utilities st) (start_state mdp))
    as [l|] eqn:G; [|discriminate].
  inversion HL; subst.
  assert (In (start_state mdp) (dict_keys (states mdp))) as Hs.
  { destruct (in_dec State_eq_dec (start_state mdp) (dict_keys (states mdp)))
      as [H|H]; auto.
    exfalso. rewrite (@vi_iterate_outside _ N _ _ _ _ _ I H) in G.
    rewrite (@vi_init_outside _ _ H) in G. discriminate. }
  destruct (Hist _ Hs) as (l' & G' & Len & _).
  rewrite G in G'. inversion G'; subst. unfold len. rewrite Len. reflexivity.
Qed.

Lemma unit_mdp_NoDup r gamma : NoDup (dict_keys (states (unit_mdp r gamma))).
Proof. vm_compute. constructor; [intros []|constructor]. Qed.

Lemma value_iteration_history_witness :
  exists res,
    value_iteration 1 (unit_mdp 1 (1 # 2)) (3 # 2) = Ok res /\
    exists n st delta threshold,
      (n < 1)%nat /\
      stopping_threshold (unit_mdp 1 (1 # 2)) (3 # 2) = Ok threshold /\
      vi_iterate n (unit_mdp 1 (1 # 2)) (vi_init (unit_mdp 1 (1 # 2)))
      = Ok (st, delta) /\
      delta < threshold /\
      (forall k, (k < n)%nat ->
         exists stk dk,
           vi_iterate k (unit_mdp 1 (1 # 2)) (vi_init (unit_mdp 1 (1 # 2)))
           = Ok (stk, dk) /\
           ~ dk < threshold) /\
      converged_utilities res = vi_current_utilities st /\
      iteration_utilities res = vi_all_iteration_utilities st /\
      num_iterations res = Z.of_nat (S n) /\
      forall s, In s (dict_keys (states (unit_mdp 1 (1 # 2)))) ->
        exists l,
          dict_get_opt (iteration_utilities res) s = Some l /\
          length l = S n /\
          nth_error l 0 = Some 0 /\
          nth_error l n = dict_get_opt (converged_utilities res) s.
Proof.
  eexists. split; [vm_compute; reflexivity|].
  apply (@value_iteration_history 1 (unit_mdp 1 (1 # 2)) (3 # 2)).
  - apply unit_mdp_NoDup.
  - vm_compute; reflexivity.
Defined.

(* ------------------------------------------------------------------ *)
(** ** A start state that is not a state *)

Lemma vi_loop_history_outside fuel mdp max_error st s :
  NoDup (dict_keys (states mdp)) ->
  vi_loop fuel mdp max_error (vi_init mdp) = Ok st ->
  ~ In s (dict_keys (states mdp)) ->
  dict_get_opt (vi_all_iteration_utilities st) s = None.
Proof.
  intros N L Hs.
  destruct (@vi_loop_is_an_iterate _ _ _ _ _ L) as (n & d & thr & _ & I & _).
  rewrite (@vi_iterate_outside _ N _ _ _ _ _ I Hs).
  apply vi_init_outside, Hs.
Qed.

Lemma pi_init_outside mdp s :
  ~ In s (dict_keys (states mdp)) ->
  dict_get_opt (pi_all_iteration_utilities (pi_init mdp)) s = None.
Proof.
  intros Hs. unfold pi_init.
  apply (@fold_left_invariant _ _
           (fun st => dict_get_opt (pi_all_iteration_utilities st) s = None)).
  - reflexivity.
  - intros st y Hy G. simpl. rewrite dict_get_opt_lookup_cases.
    destruct (keqb y s) eqn:K; auto.
    apply keqb_eq in K; subst; contradiction.
Qed.

Lemma pi_round_outside mdp k st st' s :
  pi_round mdp k st = Ok st' ->
  ~ In s (dict_keys (states mdp)) ->
  dict_get_opt (pi_all_iteration_utilities st') s =
  dict_get_opt (pi_all_iteration_utilities st) s.
Proof.
  unfold pi_round. intros E Hs. bind_inv E. destruct x as [cur new_iter].
  bind_inv E. destruct x as [policy changed]. bind_inv E.
  inversion E; subst; simpl. clear E. revert E2.
  apply (@foldM_invariant _ _
           (fun h : History =>
              dict_get_opt h s =
              dict_get_opt (pi_all_iteration_utilities st) s)); auto.
  intros h y h' Hy Hh E. bind_inv E. bind_inv E. inversion E; subst.
  rewrite dict_get_opt_lookup_cases. destruct (keqb y s) eqn:K; auto.
  apply keqb_eq in K; subst; contradiction.
Qed.

Lemma pi_loop_outside fuel mdp k st0 st s :
  pi_loop fuel mdp k st0 = Ok st ->
  ~ In s (dict_keys (states mdp)) ->
  dict_get_opt (pi_all_iteration_utilities st) s =
  dict_get_opt (pi_all_iteration_utilities st0) s.
Proof.
  revert st0. induction fuel as [|fuel IH]; intros st0 E Hs; simpl in E;
    destruct (pi_hasChanged st0); try discriminate;
    try (inversion E; subst; reflexivity).
  bind_inv E. rewrite (IH _ E Hs). eapply pi_round_outside; eauto.
Qed.

(** X2: when [mdp.start_state] is not a key of [mdp.states] (for a maze:
    a wall or a coordinate off the grid), neither solver returns a result;
    a run whose loop has stopped ends in the [TypeError] of
    [len(all_iteration_utilities.get(mdp.start_state))]. *)
Theorem solvers_need_a_valid_start_state mdp :
  NoDup (dict_keys (states mdp)) ->
  ~ In (start_state mdp) (dict_keys (states mdp)) ->
  (forall fuel max_error st,
     vi_loop fuel mdp max_error (vi_init mdp) = Ok st ->
     value_iteration fuel mdp max_error = Raise TypeError) /\
  (forall fuel k st,
     pi_loop fuel mdp k (pi_init mdp) = Ok st ->
     policy_iteration fuel mdp k = Raise TypeError) /\
  (forall fuel max_error res, value_iteration fuel mdp max_error <> Ok res) /\
  (forall fuel k res, policy_iteration fuel mdp k <> Ok res).
Proof.
  intros N Hs.
  assert (V : forall fuel max_error st,
             vi_loop fuel mdp max_error (vi_init mdp) = Ok st ->
             value_iteration fuel mdp max_error = Raise TypeError).
  { intros fuel max_error st L. unfold value_iteration, history_length.
    rewrite L. cbn [bind].
    rewrite (@vi_loop_history_outside _ _ _ _ _ N L Hs). reflexivity. }
  assert (P : forall fuel k st,
             pi_loop fuel mdp k (pi_init mdp) = Ok st ->
             policy_iteration fuel mdp k = Raise TypeError).
  { intros fuel k st L. unfold policy_iteration, history_length.
    rewrite L. cbn [bind].
    rewrite (@pi_loop_outside _ _ _ _ _ _ L Hs), (@pi_init_outside _ _ Hs).
    reflexivity. }
  repeat split; auto.
  - intros fuel max_error res E. pose proof E as E'.
    apply value_iteration_inv in E'. destruct E' as (st & L & _).
    rewrite (V _ _ _ L) in E. discriminate.
  - intros fuel k res E. pose proof E as E'.
    apply policy_iteration_inv in E'. destruct E' as (st & L & _).
    rewrite (P _ _ _ L) in E. discriminate.
Qed.

Lemma solvers_need_a_valid_start_state_witness :
  value_iteration 1 maze_start_on_wall (3 # 2) = Raise TypeError /\
  policy_iteration 1 maze_start_on_wall 1 = Raise TypeError.
Proof.
  assert (N : NoDup (dict_keys (states maze_start_on_wall))).
  { vm_compute. constructor; [intros []|constructor]. }
  assert (Hs : ~ In (start_state maze_start_on_wall)
                    (dict_keys (states maze_start_on_wall))).
  { vm_compute. intros [H|[]]. discriminate H. }
  destruct (@solvers_need_a_valid_start_state maze_start_on_wall N Hs)
    as (V & P & _).
  split.
  - eapply V. vm_compute. reflexivity.
  - eapply P. vm_compute. reflexivity.
Defined.

(* ------------------------------------------------------------------ *)
(** ** Discount factor zero *)

(** X3: on a constructed maze with discount factor 0 the first sweep of
    [value_iteration] succeeds and the stopping test then divides by zero:
    every run that enters the loop ends in [ZeroDivisionError]. *)
Theorem value_iteration_divides_by_zero_discount env start gamma m :
  Maze_init env start gamma = Ok m -> gamma == 0 ->
  forall fuel max_error,
    value_iteration (S fuel) (Maze_as_mdp m) max_error
    = Raise ZeroDivisionError.
Proof.
  intros Hm G fuel max_error.
  destruct (Maze_init_inv _ _ _ Hm) as (_ & _ & _ & Hg & _).
  destruct (@maze_vi_sweep_defined env start gamma m Hm _
              (maze_vi_init_ready m)) as (st' & d & E & _).
  unfold value_iteration. cbn [vi_loop]. rewrite E. cbn [bind].
  unfold stopping_threshold, py_div. cbn [discount_factor Maze_as_mdp].
  rewrite Hg. apply Qeq_bool_iff in G. rewrite G. reflexivity.
Qed.

Lemma value_iteration_divides_by_zero_discount_witness :
  exists m,
    Maze_init [[Some 1; None]] (0, 0)%Z 0 = Ok m /\
    forall fuel max_error,
      value_iteration (S fuel) (Maze_as_mdp m) max_error
      = Raise ZeroDivisionError.
Proof.
  eexists. split; [vm_compute; reflexivity|].
  apply (@value_iteration_divides_by_zero_discount
           [[Some 1; None]] (0, 0)%Z 0).
  - vm_compute; reflexivity.
  - reflexivity.
Defined.

(* ------------------------------------------------------------------ *)
(** ** The returned utilities are an approximate fixed point *)




(* ------------------------------------------------------------------ *)
(** ** Expected utilities and transition probabilities of a maze *)

Lemma drift_outcomes_sides resolve a :
  drift_outcomes resolve a =
  [ (a, mkOutcome (resolve a) (8 # 10));
    (fst (side_actions a), mkOutcome (resolve (fst (side_actions a))) (1 # 10));
    (snd (side_actions a), mkOutcome (resolve (snd (side_actions a))) (1 # 10)) ].
Proof. destruct a; reflexivity. Qed.

(** The number [get_expected_utility] computes on a maze. *)
Lemma maze_expected_utility_value env start gamma m s a U :
  Maze_init env start gamma = Ok m ->
  In s (dict_keys (maze_states m)) -> defined_on_states m U ->
  exists resolve u1 u2 u3,
    (forall b, stay_or_move env s b = Ok (resolve b)) /\
    (forall b, In (resolve b) (dict_keys (maze_states m))) /\
    dict_get_opt U (resolve a) = Some u1 /\
    dict_get_opt U (resolve (fst (side_actions a))) = Some u2 /\
    dict_get_opt U (resolve (snd (side_actions a))) = Some u3 /\
    get_expected_utility (Maze_as_mdp m) s a U
    = Ok (0 + (8 # 10) * u1 + (1 # 10) * u2 + (1 # 10) * u3).
Proof.
  intros Hm Hs HU.
  destruct (maze_table_entry _ _ _ _ Hm Hs)
    as (am & resolve & T & R & _ & V & _ & A).
  destruct (HU _ (V a)) as (u1 & E1).
  destruct (HU _ (V (fst (side_actions a)))) as (u2 & E2).
  destruct (HU _ (V (snd (side_actions a)))) as (u3 & E3).
  exists resolve, u1, u2, u3. repeat split; auto.
  unfold get_expected_utility, dict_get.
  cbn [states transition_model Maze_as_mdp]. unfold Maze_transition_model.
  unfold dict_get. rewrite T. cbn [bind]. rewrite A. cbn [bind].
  rewrite drift_outcomes_sides.
  cbn [foldM next_state bind]. rewrite E1, E2, E3. cbn [bind].
  destruct a; reflexivity.
Qed.

(** X6: for a valid state and an intended action, [transition_model] is a
    probability distribution over the four actual actions: each value is
    one of 0, 0.1, 0.8 as the drift model says, and they sum to 1. *)
Theorem maze_transition_model_is_a_distribution env start gamma m s a :
  Maze_init env start gamma = Ok m ->
  In s (dict_keys (maze_states m)) ->
  (forall b,
     Maze_transition_model m s a b =
     Ok match drift_probability a b with Some p => p | None => 0 end) /\
  exists total, transition_total m s a = Ok total /\ total == 1.
Proof.
  intros Hm Hs.
  destruct (maze_table_entry _ _ _ _ Hm Hs)
    as (am & resolve & T & _ & _ & _ & _ & A).
  destruct (Maze_init_inv _ _ _ Hm) as (_ & _ & Ha & _).
  assert (TM : forall b,
             Maze_transition_model m s a b =
             Ok match drift_probability a b with Some p => p | None => 0 end).
  { intros b. unfold Maze_transition_model, dict_get.
    rewrite T. cbn [bind]. rewrite A. cbn [bind].
    destruct a, b; reflexivity. }
  split; [exact TM|].
  unfold transition_total. rewrite Ha. unfold all_MazeActions.
  cbn [foldM]. rewrite !TM. cbn [bind].
  eexists. split; [reflexivity|]. destruct a; reflexivity.
Qed.

Lemma maze_transition_model_is_a_distribution_witness :
  exists m,
    maze_with_wall = Ok m /\
    (forall b,
       Maze_transition_model m (0, 0)%Z LEFT b =
       Ok match drift_probability LEFT b with Some p => p | None => 0 end) /\
    exists total, transition_total m (0, 0)%Z LEFT = Ok total /\ total == 1.
Proof.
  eexists. split; [vm_compute; reflexivity|].
  apply (@maze_transition_model_is_a_distribution
           [[Some 1; None]] (0, 0)%Z (1 # 2)).
  - vm_compute; reflexivity.
  - simpl; auto.
Defined.

(* ------------------------------------------------------------------ *)
(** ** Policy evaluation *)

Lemma policy_evaluation_unfold mdp policy utilities k :
  policy_evaluation mdp policy utilities k =
  ('(cur, ni) <- pe_copy mdp utilities ;;
   '(cur, _, ni) <- foldM (pe_round mdp policy) (py_range k) (cur, [], ni) ;;
   Ok (cur, ni)).
Proof. reflexivity. Qed.

Lemma pe_copy_spec mdp utilities cur ni :
  pe_copy mdp utilities = Ok (cur, ni) ->
  (forall s, In s (dict_keys (states mdp)) ->
     exists u, dict_get_opt utilities s = Some u /\
               dict_get_opt cur s = Some u /\
               dict_get_opt ni s = Some []) /\
  (forall t, ~ In t (dict_keys (states mdp)) ->
     dict_get_opt cur t = None /\ dict_get_opt ni t = None).
Proof.
  unfold pe_copy. intros E. split.
  - intros s Hs.
    set (P := fun acc : Utilities * History =>
                exists u, dict_get_opt utilities s = Some u /\
                          dict_get_opt (fst acc) s = Some u /\
                          dict_get_opt (snd acc) s = Some []).
    change (P (cur, ni)). revert E.
    apply (@foldM_established _ _ P _ _ s); auto.
    + intros [c n] acc' E. bind_inv E. apply dict_get_Ok in E0.
      inversion E; subst. exists x. cbn [fst snd].
      repeat split; auto; apply dict_get_opt_set_same.
    + intros [c n] y acc' (u & Gu & Gc & Gn) E. bind_inv E.
      apply dict_get_Ok in E0. inversion E; subst. cbn [fst snd] in *.
      exists u. cbn [fst snd]. rewrite !dict_get_opt_lookup_cases.
      destruct (keqb y s) eqn:K; auto.
      apply keqb_eq in K; subst y. repeat split; congruence.
  - intros t Ht.
    set (P := fun acc : Utilities * History =>
                dict_get_opt (fst acc) t = None /\
                dict_get_opt (snd acc) t = None).
    change (P (cur, ni)). revert E.
    apply (@foldM_invariant _ _ P); [split; reflexivity|].
    intros [c n] y acc' Hy (Gc & Gn) E. bind_inv E. inversion E; subst.
    unfold P; cbn [fst snd] in *. rewrite !dict_get_opt_lookup_cases.
    destruct (keqb y t) eqn:K; auto.
    apply keqb_eq in K; subst; contradiction.
Qed.

Lemma pe_update_spec mdp policy cur upd upd' :
  pe_update mdp policy cur upd = Ok upd' ->
  forall s, In s (dict_keys (states mdp)) ->
    exists v, is_policy_backup mdp policy cur s v /\
              dict_get_opt upd' s = Some v.
Proof.
  unfold pe_update. intros E s Hs.
  set (P := fun u : Utilities =>
              exists v, is_policy_backup mdp policy cur s v /\
                        dict_get_opt u s = Some v).
  change (P upd'). revert E.
  match goal with
  | |- foldM ?f _ _ = _ -> _ =>
      assert (Hstep : forall u y u', f u y = Ok u' ->
                (y = s -> P u') /\ (P u -> P u'))
  end.
  { intros u y u' E. bind_inv E. rename x into r.
    bind_inv E. rename x into a. apply dict_get_Ok in E1.
    bind_inv E. rename x into eu.
    destruct r as [r|]; [|discriminate]. inversion E; subst u'.
    split.
    - intros ->. exists (r + discount_factor mdp * eu). split.
      + exists r, a, eu. auto.
      + apply dict_get_opt_set_same.
    - intros (v & B & G). unfold P. rewrite dict_get_opt_lookup_cases.
      destruct (keqb y s) eqn:K.
      + apply keqb_eq in K; subst y.
        exists (r + discount_factor mdp * eu). split; auto.
        exists r, a, eu. auto.
      + exists v. auto. }
  apply (@foldM_established _ _ P _ _ s); auto.
  - intros u u' E. apply (proj1 (Hstep _ _ _ E)). reflexivity.
  - intros u y u' HP E. apply (proj2 (Hstep _ _ _ E)). exact HP.
Qed.

Lemma pe_commit_fold (upd : Utilities) l cur ni cur' ni' :
  NoDup l ->
  foldM (fun (acc : Utilities * History) state =>
           let (current_utilities, new_iteration_utilities) := acc in
           u <- dict_get upd state ;;
           let current_utilities := dict_set current_utilities state u in
           l <- dict_get new_iteration_utilities state ;;
           cu <- dict_get current_utilities state ;;
           Ok (current_utilities,
               dict_set new_iteration_utilities state (l ++ [cu])))
        l (cur, ni) = Ok (cur', ni') ->
  (forall s, In s l ->
     exists v old, dict_get_opt upd s = Some v /\
                   dict_get_opt ni s = Some old /\
                   dict_get_opt cur' s = Some v /\
                   dict_get_opt ni' s = Some (old ++ [v])) /\
  (forall t, ~ In t l ->
     dict_get_opt cur' t = dict_get_opt cur t /\
     dict_get_opt ni' t = dict_get_opt ni t).
Proof.
  revert cur ni. induction l as [|x l IH]; intros cur ni N E.
  - simpl in E. inversion E; subst. split; [intros s []|auto].
  - cbn [foldM] in E. bind_inv E. destruct x0 as [cur1 ni1].
    bind_inv E0. rename x0 into v. apply dict_get_Ok in E1.
    bind_inv E0. rename x0 into old. apply dict_get_Ok in E2.
    rewrite dict_get_set_same in E0. cbn [bind] in E0.
    inversion E0; subst cur1 ni1; clear E0.
    inversion N as [|? ? Hx N']; subst.
    destruct (IH _ _ N' E) as (I1 & I2). split.
    + intros s [<-|Hs].
      * exists v, old. destruct (I2 x Hx) as (Gc & Gn).
        rewrite Gc, Gn, !dict_get_opt_set_same. auto.
      * destruct (I1 s Hs) as (v' & old' & Gu & Gn & Gc' & Gn').
        exists v', old'. repeat split; auto.
        rewrite <- Gn. symmetry. apply dict_get_opt_set_other.
        intros ->; contradiction.
    + intros t Ht.
      destruct (I2 t) as (Gc & Gn); [intros H; apply Ht; simpl; auto|].
      rewrite Gc, Gn, !dict_get_opt_lookup_cases.
      destruct (keqb x t) eqn:K; auto.
      apply keqb_eq in K; subst. exfalso; apply Ht; simpl; auto.
Qed.

Lemma pe_round_spec mdp policy cur upd ni i cur' upd' ni' :
  NoDup (dict_keys (states mdp)) ->
  pe_round mdp policy (cur, upd, ni) i = Ok (cur', upd', ni') ->
  (forall s, In s (dict_keys (states mdp)) ->
     exists v old, is_policy_backup mdp policy cur s v /\
                   dict_get_opt ni s = Some old /\
                   dict_get_opt cur' s = Some v /\
                   dict_get_opt ni' s = Some (old ++ [v])) /\
  (forall t, ~ In t (dict_keys (states mdp)) ->
     dict_get_opt cur' t = dict_get_opt cur t /\
     dict_get_opt ni' t = dict_get_opt ni t).
Proof.
  intros N E. unfold pe_round in E. bind_inv E. rename x into upd1.
  bind_inv E. destruct x as [cur1 ni1]. inversion E; subst; clear E.
  unfold pe_commit in E1.
  destruct (@pe_commit_fold _ _ _ _ _ _ N E1) as (C1 & C2). split; [|exact C2].
  intros s Hs. destruct (C1 s Hs) as (v & old & Gu & Gn & Gc & Gn').
  destruct (@pe_update_spec _ _ _ _ _ E0 s Hs) as (v' & B & Gu').
  rewrite Gu in Gu'. inversion Gu'; subst v'.
  exists v, old. auto.
Qed.

(** The rounds of [policy_evaluation]: [L s] lists the utilities of [s]
    after each round; round [i] backs every state up from the table [T]
    that holds the values before that round. *)
Lemma pe_rounds_spec mdp policy :
  NoDup (dict_keys (states mdp)) ->
  forall (rounds : list Z) cur0 upd0 ni0 cur upd ni,
    foldM (pe_round mdp policy) rounds (cur0, upd0, ni0) = Ok (cur, upd, ni) ->
    (forall t, ~ In t (dict_keys (states mdp)) ->
       dict_get_opt cur t = dict_get_opt cur0 t /\
       dict_get_opt ni t = dict_get_opt ni0 t) /\
    exists L : State -> list Q,
      (forall s, In s (dict_keys (states mdp)) ->
         forall l0, dict_get_opt ni0 s = Some l0 ->
                    dict_get_opt ni s = Some (l0 ++ L s)) /\
      (forall s, In s (dict_keys (states mdp)) ->
         length (L s) = length rounds) /\
      (forall s, In s (dict_keys (states mdp)) ->
         forall u0, dict_get_opt cur0 s = Some u0 ->
           dict_get_opt cur s = nth_error (u0 :: L s) (length rounds)) /\
      (forall i, (i < length rounds)%nat ->
         exists T : Utilities,
           (forall t, In t (dict_keys (states mdp)) ->
              forall u0, dict_get_opt cur0 t = Some u0 ->
                dict_get_opt T t = nth_error (u0 :: L t) i) /\
           (forall t, ~ In t (dict_keys (states mdp)) ->
              dict_get_opt T t = dict_get_opt cur0 t) /\
           (forall s, In s (dict_keys (states mdp)) ->
              exists v, nth_error (L s) i = Some v /\
                        is_policy_backup mdp policy T s v)).
Proof.
  intros N. induction rounds as [|r rounds IH];
    intros cur0 upd0 ni0 cur upd ni E.
  - simpl in E. inversion E; subst. split; [auto|].
    exists (fun _ => []). repeat split; auto.
    + intros s _ l0 G. rewrite app_nil_r. exact G.
    + intros i Hi. simpl in Hi. lia.
  - cbn [foldM] in E. bind_inv E. destruct x as [[cur1 upd1] ni1].
    destruct (@pe_round_spec _ _ _ _ _ _ _ _ _ N E0) as (R1 & R2).
    destruct (IH _ _ _ _ _ _ E) as (O & L' & A1 & A2 & A3 & A4).
    split.
    + intros t Ht. destruct (O t Ht) as (-> & ->). apply R2, Ht.
    + exists (fun s => match dict_get_opt cur1 s with
                       | Some v => v :: L' s
                       | None => L' s
                       end).
      split; [|split; [|split]].
      * intros s Hs l0 G.
        destruct (R1 s Hs) as (v & old & _ & Gn & Gc & Gn').
        rewrite G in Gn. inversion Gn; subst old.
        rewrite Gc, (A1 s Hs _ Gn'), <- app_assoc. reflexivity.
      * intros s Hs. destruct (R1 s Hs) as (v & old & _ & _ & Gc & _).
        rewrite Gc. simpl. rewrite (A2 s Hs). reflexivity.
      * intros s Hs u0 G. destruct (R1 s Hs) as (v & old & _ & _ & Gc & _).
        rewrite Gc, (A3 s Hs v Gc). reflexivity.
      * intros [|i] Hi.
        -- exists cur0. split; [|split].
           ++ intros t _ u0 G. exact G.
           ++ auto.
           ++ intros s Hs.
              destruct (R1 s Hs) as (v & old & B & _ & Gc & _).
              exists v. rewrite Gc. auto.
        -- destruct (A4 i) as (T & T1 & T2 & T3); [simpl in Hi; lia|].
           exists T. split; [|split].
           ++ intros t Ht u0 G.
              destruct (R1 t Ht) as (v & old & _ & _ & Gc & _).
              rewrite Gc, (T1 t Ht v Gc). reflexivity.
           ++ intros t Ht. rewrite (T2 t Ht). apply R2, Ht.
           ++ intros s Hs. destruct (T3 s Hs) as (v & Nv & B).
              destruct (R1 s Hs) as (v1 & old & _ & _ & Gc & _).
              exists v. rewrite Gc. auto.
Qed.

Lemma py_range_length k : length (py_range k) = Z.to_nat k.
Proof. unfold py_range. rewrite length_map, length_seq. reflexivity. Qed.

(** The rounds of [policy_evaluation] seen from its caller. *)
Lemma policy_evaluation_spec mdp policy utilities k cur record :
  NoDup (dict_keys (states mdp)) ->
  policy_evaluation mdp policy utilities k = Ok (cur, record) ->
  exists L : State -> list Q,
    (forall s, In s (dict_keys (states mdp)) ->
       dict_get_opt record s = Some (L s) /\
       length (L s) = Z.to_nat k /\
       exists u0, dict_get_opt utilities s = Some u0 /\
                  dict_get_opt cur s = nth_error (u0 :: L s) (Z.to_nat k)) /\
    (forall i, (i < Z.to_nat k)%nat ->
       exists T : Utilities,
         (forall t, In t (dict_keys (states mdp)) ->
            exists u0, dict_get_opt utilities t = Some u0 /\
                       dict_get_opt T t = nth_error (u0 :: L t) i) /\
         (forall t, ~ In t (dict_keys (states mdp)) ->
            dict_get_opt T t = None) /\
         (forall s, In s (dict_keys (states mdp)) ->
            exists v, nth_error (L s) i = Some v /\
                      is_policy_backup mdp policy T s v)).
Proof.
  intros N E. rewrite policy_evaluation_unfold in E.
  bind_inv E. destruct x as [cur0 ni0]. bind_inv E.
  destruct x as [[cur1 upd1] ni1]. inversion E; subst; clear E.
  destruct (@pe_copy_spec _ _ _ _ E0) as (C1 & C2).
  destruct (@pe_rounds_spec _ _ N _ _ _ _ _ _ _ E1)
    as (O & L & A1 & A2 & A3 & A4).
  rewrite py_range_length in *.
  exists L. split.
  - intros s Hs. destruct (C1 s Hs) as (u & Gu & Gc & Gn).
    split; [apply (A1 s Hs _ Gn)|]. split; [apply (A2 s Hs)|].
    exists u. split; auto.
  - intros i Hi. destruct (A4 i Hi) as (T & T1 & T2 & T3).
    exists T. split; [|split]; auto.
    + intros t Ht. destruct (C1 t Ht) as (u & Gu & Gc & Gn).
      exists u. split; auto.
    + intros t Ht. rewrite (T2 t Ht). apply C2, Ht.
Qed.

(** X8: [policy_evaluation] performs [num_policy_evaluation] synchronous
    rounds.  Every state's record gets one entry per round ([L s], none
    when the count is <= 0), the returned utility is the last entry (or the
    input utility when there is no round), and the entries of round [i]
    are the backups R(s) + gamma * EU(s, policy[s], T) over the table [T]
    of the values before that round, which holds the states and nothing
    else. *)
Theorem policy_evaluation_rounds mdp policy utilities k cur record :
  NoDup (dict_keys (states mdp)) ->
  policy_evaluation mdp policy utilities k = Ok (cur, record) ->
  exists L : State -> list Q,
    (forall s, In s (dict_keys (states mdp)) ->
       dict_get_opt record s = Some (L s) /\
       length (L s) = Z.to_nat k /\
       exists u0, dict_get_opt utilities s = Some u0 /\
                  dict_get_opt cur s = nth_error (u0 :: L s) (Z.to_nat k)) /\
    (forall i, (i < Z.to_nat k)%nat ->
       exists T : Utilities,
         (forall t, In t (dict_keys (states mdp)) ->
            exists u0, dict_get_opt utilities t = Some u0 /\
                       dict_get_opt T t = nth_error (u0 :: L t) i) /\
         (forall t, ~ In t (dict_keys (states mdp)) ->
            dict_get_opt T t = None) /\
         (forall s, In s (dict_keys (states mdp)) ->
            exists v, nth_error (L s) i = Some v /\
                      is_policy_backup mdp policy T s v)).
Proof. apply policy_evaluation_spec. Qed.

Lemma policy_evaluation_rounds_witness :
  exists cur record,
    policy_evaluation (unit_mdp 1 (1 # 2)) [((0, 0)%Z, Some UP)]
                      [((0, 0)%Z, 0)] 2 = Ok (cur, record) /\
    exists L : State -> list Q,
      (forall s, In s (dict_keys (states (unit_mdp 1 (1 # 2)))) ->
         dict_get_opt record s = Some (L s) /\
         length (L s) = Z.to_nat 2 /\
         exists u0, dict_get_opt [((0, 0)%Z, 0)] s = Some u0 /\
                    dict_get_opt cur s = nth_error (u0 :: L s) (Z.to_nat 2)) /\
      (forall i, (i < Z.to_nat 2)%nat ->
         exists T : Utilities,
           (forall t, In t (dict_keys (states (unit_mdp 1 (1 # 2)))) ->
              exists u0, dict_get_opt [((0, 0)%Z, 0)] t = Some u0 /\
                         dict_get_opt T t = nth_error (u0 :: L t) i) /\
           (forall t, ~ In t (dict_keys (states (unit_mdp 1 (1 # 2)))) ->
              dict_get_opt T t = None) /\
           (forall s, In s (dict_keys (states (unit_mdp 1 (1 # 2)))) ->
              exists v, nth_error (L s) i = Some v /\
                        is_policy_backup (unit_mdp 1 (1 # 2))
                          [((0, 0)%Z, Some UP)] T s v)).
Proof.
  eexists _, _. split; [vm_compute; reflexivity|].
  apply (@policy_evaluation_rounds (unit_mdp 1 (1 # 2))
           [((0, 0)%Z, Some UP)] [((0, 0)%Z, 0)] 2).
  - apply unit_mdp_NoDup.
  - vm_compute; reflexivity.
Defined.

(* ------------------------------------------------------------------ *)
(** ** Policy improvement *)

Section Improvement.
Variables (mdp : MarkovDecisionProcess) (policy : Policy) (U : Utilities).

Let improvement_step (acc : Policy * bool) (state : State) :=
  let (improved_policy, hasChanged) := acc in
  action_next_state_map <- dict_get (states mdp) state ;;
  '(max_expected_utility, best_action) <-
    best_action_loop mdp state U action_next_state_map ;;
  a <- dict_get policy state ;;
  current_expected_utility <- get_expected_utility_of mdp state a U ;;
  if improves max_expected_utility current_expected_utility
  then Ok (dict_set improved_policy state best_action, true)
  else
    a <- dict_get policy state ;;
    Ok (dict_set improved_policy state a, hasChanged).

(** What one state contributes: the quantities the loop body computes. *)
Let decision (s : State) (mx : option Q) (best a : option MazeActions)
    (cur : Q) : Prop :=
  exists am,
    dict_get_opt (states mdp) s = Some am /\
    best_action_loop mdp s U am = Ok (mx, best) /\
    dict_get_opt policy s = Some a /\
    get_expected_utility_of mdp s a U = Ok cur.

Lemma improvement_step_inv improved changed s acc' :
  improvement_step (improved, changed) s = Ok acc' ->
  exists mx best a cur,
    decision s mx best a cur /\
    acc' = (dict_set improved s (if improves mx cur then best else a),
            if improves mx cur then true else changed).
Proof.
  unfold improvement_step. intros E.
  bind_inv E. rename x into am. apply dict_get_Ok in E0.
  bind_inv E. destruct x as [mx best].
  bind_inv E. rename x into a. pose proof E2 as E2'.
  apply dict_get_Ok in E2'.
  bind_inv E. rename x into cur.
  exists mx, best, a, cur. split; [exists am; auto|].
  destruct (improves mx cur); [inversion E; reflexivity|].
  rewrite E2 in E. cbn [bind] in E. inversion E; reflexivity.
Qed.

Lemma decision_unique s mx best a cur mx' best' a' cur' :
  decision s mx best a cur -> decision s mx' best' a' cur' ->
  mx = mx' /\ best = best' /\ a = a' /\ cur = cur'.
Proof.
  intros (am & A1 & A2 & A3 & A4) (am' & B1 & B2 & B3 & B4).
  rewrite A1 in B1. inversion B1; subst am'.
  rewrite A2 in B2. inversion B2; subst.
  rewrite A3 in B3. inversion B3; subst.
  rewrite A4 in B4. inversion B4; subst. auto.
Qed.

Lemma improvement_entries l acc policy' changed s :
  foldM improvement_step l acc = Ok (policy', changed) -> In s l ->
  exists mx best a cur,
    decision s mx best a cur /\
    dict_get_opt policy' s = Some (if improves mx cur then best else a).
Proof.
  intros E Hs.
  set (P := fun acc : Policy * bool =>
              exists mx best a cur,
                decision s mx best a cur /\
                dict_get_opt (fst acc) s =
                Some (if improves mx cur then best else a)).
  change (P (policy', changed)). revert E.
  apply (@foldM_established _ _ P improvement_step l s); auto.
  - intros [p c] acc' E. apply improvement_step_inv in E.
    destruct E as (mx & best & a & cur & D & ->).
    exists mx, best, a, cur. split; auto. apply dict_get_opt_set_same.
  - intros [p c] y acc' (mx & best & a & cur & D & G) E.
    apply improvement_step_inv in E.
    destruct E as (mx' & best' & a' & cur' & D' & ->).
    exists mx, best, a, cur. split; auto. cbn [fst] in *.
    rewrite dict_get_opt_lookup_cases. destruct (keqb y s) eqn:K; auto.
    apply keqb_eq in K; subst y.
    destruct (decision_unique D D') as (-> & -> & -> & ->). reflexivity.
Qed.

Lemma improvement_flag l p0 c0 policy' changed :
  foldM improvement_step l (p0, c0) = Ok (policy', changed) ->
  (changed = true <->
   c0 = true \/
   exists s mx best a cur,
     In s l /\ decision s mx best a cur /\ improves mx cur = true).
Proof.
  revert p0 c0. induction l as [|s l IH]; intros p0 c0 E.
  - simpl in E. inversion E; subst. split; auto.
    intros [H|(s & _ & _ & _ & _ & [] & _)]; auto.
  - cbn [foldM] in E. bind_inv E. apply improvement_step_inv in E0.
    destruct E0 as (mx & best & a & cur & D & ->).
    rewrite (IH _ _ E). split.
    + intros [H|(t & mx' & best' & a' & cur' & Ht & D' & I)].
      * destruct (improves mx cur) eqn:I; auto.
        right. exists s, mx, best, a, cur. simpl; auto.
      * right. exists t, mx', best', a', cur'. simpl; auto.
    + intros [->|(t & mx' & best' & a' & cur' & [<-|Ht] & D' & I)].
      * left. destruct (improves mx cur); reflexivity.
      * destruct (decision_unique D D') as (-> & -> & -> & ->).
        rewrite I. auto.
      * right. exists t, mx', best', a', cur'. auto.
Qed.
End Improvement.

(** The outcome of [policy_improvement], state by state, and its flag. *)
Lemma policy_improvement_spec mdp policy U policy' changed :
  policy_improvement mdp policy U = Ok (policy', changed) ->
  (forall s, In s (dict_keys (states mdp)) ->
     exists a_old v_old a_new v_new,
       dict_get_opt policy s = Some (Some a_old) /\
       get_expected_utility mdp s a_old U = Ok v_old /\
       dict_get_opt policy' s = Some (Some a_new) /\
       get_expected_utility mdp s a_new U = Ok v_new /\
       v_old <= v_new /\
       (a_new = a_old \/ v_old < v_new) /\
       (forall am a',
          dict_get_opt (states mdp) s = Some am -> In a' (dict_keys am) ->
          exists v', get_expected_utility mdp s a' U = Ok v' /\
                     v' <= v_new)) /\
  (changed = false <->
   forall s, In s (dict_keys (states mdp)) ->
     dict_get_opt policy' s = dict_get_opt policy s).
Proof.
  intros E. unfold policy_improvement in E.
  assert (Entry : forall s, In s (dict_keys (states mdp)) ->
            exists am mx best a_old v_old,
              dict_get_opt (states mdp) s = Some am /\
              best_action_loop mdp s U am = Ok (mx, best) /\
              dict_get_opt policy s = Some (Some a_old) /\
              get_expected_utility mdp s a_old U = Ok v_old /\
              dict_get_opt policy' s =
              Some (if improves mx v_old then best else Some a_old)).
  { intros s Hs.
    destruct (@improvement_entries mdp policy U _ _ _ _ s E Hs)
      as (mx & best & a & cur & (am & A1 & A2 & A3 & A4) & G).
    destruct a as [a|]; [|discriminate A4].
    exists am, mx, best, a, cur. auto. }
  split.
  - intros s Hs.
    destruct (Entry s Hs) as (am & mx & best & a & cur & A1 & A2 & A3 & A4 & G).
    pose proof (best_action_loop_spec _ _ _ _ A2) as Sp.
    destruct (improves mx cur) eqn:I.
    + destruct mx as [m|]; [|discriminate I].
      destruct best as [b|]; [|contradiction].
      destruct Sp as (Hb & Gb & (_ & M)). simpl in I. apply Qltb_lt in I.
      exists a, cur, b, m. repeat split; auto; try lra.
      intros am' a' A1' Ha'. rewrite A1 in A1'. inversion A1'; subst am'.
      apply M, Ha'.
    + exists a, cur, a, cur. repeat split; auto; try apply Qle_refl.
      intros am' a' A1' Ha'. rewrite A1 in A1'. inversion A1'; subst am'.
      destruct mx as [m|].
      * destruct best as [b|]; [|contradiction].
        destruct Sp as (_ & _ & (_ & M)). simpl in I. apply Qltb_ge in I.
        destruct (M a' Ha') as (v' & G' & L). exists v'. split; auto. lra.
      * destruct best; [contradiction|]. subst am. destruct Ha'.
  - pose proof (@improvement_flag mdp policy U _ _ _ _ _ E) as F. split.
    + intros C s Hs.
      destruct (Entry s Hs)
        as (am & mx & best & a & cur & A1 & A2 & A3 & A4 & G).
      destruct (improves mx cur) eqn:I; [|congruence].
      exfalso. assert (changed = true) as C'; [|congruence].
      apply F. right. exists s, mx, best, (Some a), cur.
      repeat split; auto. exists am. auto.
    + intros Same. destruct changed; auto. exfalso.
      destruct (proj1 F eq_refl) as [H|H]; [discriminate|].
      destruct H as (s & mx & best & a & cur & Hs
                       & (am & A1 & A2 & A3 & A4) & I).
      destruct (Entry s Hs)
        as (am' & mx' & best' & a' & cur' & B1 & B2 & B3 & B4 & G).
      rewrite A1 in B1. inversion B1; subst am'.
      rewrite A2 in B2. inversion B2; subst mx' best'.
      rewrite A3 in B3. inversion B3; subst a. simpl in A4.
      rewrite A4 in B4. inversion B4; subst cur'.
      rewrite I, (Same s Hs), A3 in G. inversion G; subst best.
      apply best_action_loop_spec in A2.
      destruct mx as [m|]; [|discriminate I].
      destruct A2 as (_ & Gb & _). rewrite A4 in Gb. inversion Gb; subst m.
      simpl in I. apply Qltb_lt in I. lra.
Qed.



(* ------------------------------------------------------------------ *)
(** ** The result of policy iteration *)

Lemma pi_loop_final fuel mdp k st0 st :
  pi_loop fuel mdp k st0 = Ok st -> pi_hasChanged st0 = true ->
  exists st1, pi_round mdp k st1 = Ok st /\ pi_hasChanged st = false.
Proof.
  revert st0; induction fuel as [|fuel IH]; intros st0 E C; simpl in E;
    rewrite C in E; [discriminate|].
  bind_inv E. rename x into st1.
  destruct (pi_hasChanged st1) eqn:C1; [eauto|].
  destruct fuel; simpl in E; rewrite C1 in E; inversion E; subst; eauto.
Qed.

Lemma pi_round_inv mdp k st st' :
  pi_round mdp k st = Ok st' ->
  exists record,
    policy_evaluation mdp (pi_policy st) (pi_current_utilities st) k
    = Ok (pi_current_utilities st', record) /\
    policy_improvement mdp (pi_policy st) (pi_current_utilities st')
    = Ok (pi_policy st', pi_hasChanged st') /\
    pi_num_iterations st' = (pi_num_iterations st + k)%Z /\
    foldM (fun (h : History) state_position =>
             l <- dict_get h state_position ;;
             l' <- dict_get record state_position ;;
             Ok (dict_set h state_position (l ++ l')))
          (dict_keys (states mdp)) (pi_all_iteration_utilities st)
    = Ok (pi_all_iteration_utilities st').
Proof.
  unfold pi_round. intros E. bind_inv E. destruct x as [cur record].
  bind_inv E. destruct x as [policy changed]. bind_inv E.
  inversion E; subst; simpl. exists record. auto.
Qed.

(** X10: when [policy_iteration] returns, its policy is stable and greedy
    for the returned utilities: the last improvement pass changed nothing,
    so in every state the policy's action has an expected utility that no
    available action exceeds. *)
Theorem policy_iteration_policy_is_greedy fuel mdp k res :
  policy_iteration fuel mdp k = Ok res ->
  forall s, In s (dict_keys (states mdp)) ->
    exists am a v,
      dict_get_opt (states mdp) s = Some am /\
      dict_get_opt (optimal_policy res) s = Some (Some a) /\
      get_expected_utility mdp s a (converged_utilities res) = Ok v /\
      forall a', In a' (dict_keys am) ->
        exists v',
          get_expected_utility mdp s a' (converged_utilities res) = Ok v' /\
          ~ v < v'.
Proof.
  intros E s Hs. apply policy_iteration_inv in E.
  destruct E as (st & L & -> & -> & _).
  destruct (@pi_loop_final _ _ _ _ _ L (pi_init_hasChanged mdp))
    as (st1 & R & C).
  apply pi_round_inv in R. destruct R as (record & _ & Imp & _).
  rewrite C in Imp.
  pose proof Imp as Imp'. unfold policy_improvement in Imp'.
  destruct (@improvement_entries mdp _ _ _ _ _ _ s Imp' Hs)
    as (mx & best & a0 & cur & (am & A1 & _) & _).
  destruct (@policy_improvement_spec _ _ _ _ _ Imp) as (G & _).
  destruct (G s Hs) as (a_old & v_old & a_new & v_new
                          & _ & _ & Pn & Gn & _ & _ & M).
  exists am, a_new, v_new. repeat split; auto.
  intros a' Ha'. destruct (M am a' A1 Ha') as (v' & G' & Lv).
  exists v'. split; auto. lra.
Qed.

Lemma policy_iteration_policy_is_greedy_witness :
  exists res,
    policy_iteration 1 (unit_mdp 1 (1 # 2)) 1 = Ok res /\
    forall s, In s (dict_keys (states (unit_mdp 1 (1 # 2)))) ->
      exists am a v,
        dict_get_opt (states (unit_mdp 1 (1 # 2))) s = Some am /\
        dict_get_opt (optimal_policy res) s = Some (Some a) /\
        get_expected_utility (unit_mdp 1 (1 # 2)) s a
                             (converged_utilities res) = Ok v /\
        forall a', In a' (dict_keys am) ->
          exists v',
            get_expected_utility (unit_mdp 1 (1 # 2)) s a'
                                 (converged_utilities res) = Ok v' /\
            ~ v < v'.
Proof.
  eexists. split; [vm_compute; reflexivity|].
  apply (@policy_iteration_policy_is_greedy 1 (unit_mdp 1 (1 # 2)) 1).
  vm_compute; reflexivity.
Defined.

(* ------------------------------------------------------------------ *)
(** ** The iteration history of policy iteration *)

Lemma extend_fold (record : History) l (h h' : History) :
  NoDup l ->
  foldM (fun (h : History) state_position =>
           l <- dict_get h state_position ;;
           l' <- dict_get record state_position ;;
           Ok (dict_set h state_position (l ++ l'))) l h = Ok h' ->
  (forall s, In s l ->
     exists old l', dict_get_opt h s = Some old /\
                    dict_get_opt record s = Some l' /\
                    dict_get_opt h' s = Some (old ++ l')) /\
  (forall s, ~ In s l -> dict_get_opt h' s = dict_get_opt h s).
Proof.
  revert h. induction l as [|x l IH]; intros h N E.
  - simpl in E. inversion E; subst. split; [intros s []|auto].
  - cbn [foldM] in E. bind_inv E. bind_inv E0. bind_inv E0.
    inversion E0; subst; clear E0. apply dict_get_Ok in E1, E2.
    inversion N as [|? ? Hx N']; subst.
    destruct (IH _ N' E) as (I1 & I2). split.
    + intros s [<-|Hs].
      * exists x1, x2. repeat split; auto.
        rewrite (I2 x Hx). apply dict_get_opt_set_same.
      * destruct (I1 s Hs) as (old & u & G & C & G').
        exists old, u. repeat split; auto.
        rewrite <- G. symmetry. apply dict_get_opt_set_other.
        intros ->; contradiction.
    + intros s Hs. rewrite I2 by (intros H; apply Hs; simpl; auto).
      apply dict_get_opt_set_other. intros ->; apply Hs; simpl; auto.
Qed.

Lemma pi_round_history mdp k st st' :
  NoDup (dict_keys (states mdp)) ->
  pi_round mdp k st = Ok st' ->
  pi_num_iterations st' = (pi_num_iterations st + k)%Z /\
  forall s, In s (dict_keys (states mdp)) ->
    exists old l',
      dict_get_opt (pi_all_iteration_utilities st) s = Some old /\
      dict_get_opt (pi_all_iteration_utilities st') s = Some (old ++ l') /\
      length l' = Z.to_nat k.
Proof.
  intros N R. apply pi_round_inv in R.
  destruct R as (record & Ev & _ & Cnt & H). split; [exact Cnt|].
  intros s Hs.
  destruct (@policy_evaluation_spec _ _ _ _ _ _ N Ev) as (L & A & _).
  destruct (A s Hs) as (Gr & Len & _).
  destruct (@extend_fold _ _ _ _ N H) as (X & _).
  destruct (X s Hs) as (old & l' & Go & Gr' & Gn).
  rewrite Gr in Gr'. inversion Gr'; subst l'.
  exists old, (L s). auto.
Qed.

Lemma pi_loop_rounds mdp k :
  NoDup (dict_keys (states mdp)) ->
  forall fuel st0 st,
    pi_loop fuel mdp k st0 = Ok st ->
    exists j,
      (j <= fuel)%nat /\
      (pi_hasChanged st0 = true -> (1 <= j)%nat) /\
      pi_num_iterations st = (pi_num_iterations st0 + Z.of_nat j * k)%Z /\
      forall s, In s (dict_keys (states mdp)) ->
        forall l0, dict_get_opt (pi_all_iteration_utilities st0) s = Some l0 ->
          exists l,
            dict_get_opt (pi_all_iteration_utilities st) s = Some (l0 ++ l) /\
            length l = (j * Z.to_nat k)%nat.
Proof.
  intros N. induction fuel as [|fuel IH]; intros st0 st E; simpl in E;
    destruct (pi_hasChanged st0) eqn:C; try discriminate.
  - inversion E; subst. exists 0%nat. repeat split; auto; try lia;
      try discriminate.
    intros s _ l0 G. exists []. rewrite app_nil_r. auto.
  - bind_inv E. rename x into st1.
    destruct (@pi_round_history _ _ _ _ N E0) as (Cnt & H1).
    destruct (IH _ _ E) as (j & Hj & _ & Cj & Hh).
    exists (S j). repeat split; try lia.
    intros s Hs l0 G. destruct (H1 s Hs) as (old & l' & Go & Gn & Len).
    rewrite G in Go. inversion Go; subst old.
    destruct (Hh s Hs _ Gn) as (l & Gl & Ll).
    exists (l' ++ l). rewrite app_assoc. split; [exact Gl|].
    rewrite length_app. simpl. lia.
  - inversion E; subst. exists 0%nat. repeat split; auto; try lia;
      try discriminate.
    intros s _ l0 G. exists []. rewrite app_nil_r. auto.
Qed.

Lemma pi_init_entries mdp s :
  In s (dict_keys (states mdp)) ->
  dict_get_opt (pi_current_utilities (pi_init mdp)) s = Some 0 /\
  dict_get_opt (pi_policy (pi_init mdp)) s = Some (Some UP) /\
  dict_get_opt (pi_all_iteration_utilities (pi_init mdp)) s = Some [0].
Proof.
  intros Hs. unfold pi_init.
  apply (@fold_left_established _ _
           (fun st =>
              dict_get_opt (pi_current_utilities st) s = Some 0 /\
              dict_get_opt (pi_policy st) s = Some (Some UP) /\
              dict_get_opt (pi_all_iteration_utilities st) s = Some [0])
           _ _ s); auto.
  - intros st. simpl. repeat split; apply dict_get_opt_set_same.
  - intros st y (A & B & C). simpl.
    rewrite !dict_get_opt_lookup_cases. destruct (keqb y s); auto.
Qed.

Lemma pi_init_counter mdp : pi_num_iterations (pi_init mdp) = 0%Z.
Proof.
  unfold pi_init. apply fold_left_invariant; simpl; auto.
Qed.

(** X11: a run of [policy_iteration] that returns after j outer loops has
    j >= 1 and its local counter is j * k; every state's history holds the
    seed 0 followed by one entry per evaluation round performed, and the
    reported [num_iterations] is the length of that history, so for k >= 0
    it exceeds the number of rounds performed by one. *)
Theorem policy_iteration_history fuel mdp k res :
  NoDup (dict_keys (states mdp)) ->
  policy_iteration fuel mdp k = Ok res ->
  exists j st,
    (1 <= j <= fuel)%nat /\
    pi_loop fuel mdp k (pi_init mdp) = Ok st /\
    pi_num_iterations st = (Z.of_nat j * k)%Z /\
    num_iterations res = (1 + Z.of_nat (j * Z.to_nat k))%Z /\
    (0 <= k -> num_iterations res = 1 + pi_num_iterations st)%Z /\
    forall s, In s (dict_keys (states mdp)) ->
      exists l,
        dict_get_opt (iteration_utilities res) s = Some l /\
        length l = S (j * Z.to_nat k) /\
        nth_error l 0 = Some 0.
Proof.
  intros N E. apply policy_iteration_inv in E.
  destruct E as (st & L & _ & _ & -> & HL).
  destruct (@pi_loop_rounds _ _ N _ _ _ L) as (j & Hj & Hj1 & Cnt & Hh).
  specialize (Hj1 (pi_init_hasChanged mdp)).
  rewrite pi_init_counter in Cnt.
  assert (Hist : forall s, In s (dict_keys (states mdp)) ->
            exists l,
              dict_get_opt (pi_all_iteration_utilities st) s = Some l /\
              length l = S (j * Z.to_nat k) /\ nth_error l 0 = Some 0).
  { intros s Hs. destruct (pi_init_entries mdp s Hs) as (_ & _ & G0).
    destruct (Hh s Hs _ G0) as (l & Gl & Len).
    exists ([0] ++ l). repeat split; auto. simpl. lia. }
  assert (Hn : num_iterations res = (1 + Z.of_nat (j * Z.to_nat k))%Z).
  { unfold history_length in HL.
    destruct (dict_get_opt (pi_all_iteration_utilities st) (start_state mdp))
      as [l|] eqn:G; [|discriminate].
    inversion HL; subst.
    assert (In (start_state mdp) (dict_keys (states mdp))) as Hs.
    { destruct (in_dec State_eq_dec (start_state mdp)
                       (dict_keys (states mdp))) as [H|H]; auto.
      exfalso. rewrite (@pi_loop_outside _ _ _ _ _ _ L H) in G.
      rewrite (@pi_init_outside _ _ H) in G. discriminate. }
    destruct (Hist _ Hs) as (l' & G' & Len & _).
    rewrite G in G'. inversion G'; subst. unfold len. rewrite Len. lia. }
  exists j, st. repeat split; auto; try lia.
Qed.

Lemma policy_iteration_history_witness :
  exists res,
    policy_iteration 1 (unit_mdp 1 (1 # 2)) 1 = Ok res /\
    exists j st,
      (1 <= j <= 1)%nat /\
      pi_loop 1 (unit_mdp 1 (1 # 2)) 1 (pi_init (unit_mdp 1 (1 # 2)))
      = Ok st /\
      pi_num_iterations st = (Z.of_nat j * 1)%Z /\
      num_iterations res = (1 + Z.of_nat (j * Z.to_nat 1))%Z /\
      (0 <= 1 -> num_iterations res = 1 + pi_num_iterations st)%Z /\
      forall s, In s (dict_keys (states (unit_mdp 1 (1 # 2)))) ->
        exists l,
          dict_get_opt (iteration_utilities res) s = Some l /\
          length l = S (j * Z.to_nat 1) /\
          nth_error l 0 = Some 0.
Proof.
  eexists. split; [vm_compute; reflexivity|].
  apply (@policy_iteration_history 1 (unit_mdp 1 (1 # 2)) 1).
  - apply unit_mdp_NoDup.
  - vm_compute; reflexivity.
Defined.

(* ------------------------------------------------------------------ *)
(** ** Which grids the constructor accepts *)

Lemma py_index_outcome {A} (l : list A) i :
  (exists x, py_index l i = Ok x) \/ py_index l i = Raise IndexError.
Proof.
  unfold py_index.
  destruct ((if (i <? 0)%Z then (len l + i)%Z else i) <? 0)%Z; auto.
  destruct (nth_error l _); eauto.
Qed.

Lemma py_index_Ok_In {A} (l : list A) i x : py_index l i = Ok x -> In x l.
Proof.
  unfold py_index.
  destruct ((if (i <? 0)%Z then (len l + i)%Z else i) <? 0)%Z;
    [discriminate|].
  destruct (nth_error l _) eqn:N; intros E; inversion E; subst.
  eapply nth_error_In; eauto.
Qed.

Lemma py_index_Ok_range {A} (l : list A) i x :
  py_index l i = Ok x -> (0 <= i)%Z -> (i < len l)%Z.
Proof.
  intros E Hi. destruct (Z_lt_le_dec i (len l)) as [|Hge]; auto.
  rewrite py_index_out_of_range in E by auto. discriminate.
Qed.

Lemma no_short_row_spec env :
  no_short_row env = true <->
  forall row0 row, py_index env 0 = Ok row0 -> In row env ->
                   (len row0 <= len row)%Z.
Proof.
  destruct env as [|r0 env]; simpl.
  - split; auto. intros _ row0 row _ [].
  - rewrite Z.leb_refl. simpl. rewrite forallb_forall. split.
    + intros F row0 row E Hin. unfold py_index in E. simpl in E.
      inversion E; subst. destruct Hin as [<-|Hin]; [lia|].
      apply Z.leb_le. apply F, Hin.
    + intros F row Hin. apply Z.leb_le. apply F; auto.
Qed.

Lemma is_wall_outcome env s :
  (exists w, is_wall env s = Ok w) \/ is_wall env s = Raise IndexError.
Proof.
  unfold is_wall.
  destruct (fst s <? 0)%Z; eauto.
  destruct (fst s >=? len env)%Z; eauto.
  destruct (snd s <? 0)%Z; eauto.
  destruct (py_index_outcome env 0) as [(row0 & ->)| ->]; cbn [bind]; auto.
  destruct (snd s >=? len row0)%Z; eauto.
  destruct (py_index_outcome env (fst s)) as [(row & ->)| ->]; cbn [bind];
    auto.
  destruct (py_index_outcome row (snd s)) as [(c & ->)| ->]; cbn [bind];
    eauto.
Qed.

(** With no short row [is_wall] never raises. *)
Lemma is_wall_total env s :
  no_short_row env = true -> exists w, is_wall env s = Ok w.
Proof.
  intros F. pose proof (proj1 (no_short_row_spec env) F) as Hrows.
  unfold is_wall.
  destruct (fst s <? 0)%Z eqn:E1; eauto.
  destruct (fst s >=? len env)%Z eqn:E2; eauto.
  destruct (snd s <? 0)%Z eqn:E3; eauto.
  apply Z.ltb_ge in E1, E3. rewrite Z.geb_leb in E2. apply Z.leb_gt in E2.
  destruct (@py_index_in_range _ env 0) as (row0 & R0); [lia|].
  rewrite R0. cbn [bind].
  destruct (snd s >=? len row0)%Z eqn:E4; eauto.
  rewrite Z.geb_leb in E4. apply Z.leb_gt in E4.
  destruct (@py_index_in_range _ env (fst s)) as (row & R); [lia|].
  rewrite R. cbn [bind].
  pose proof (Hrows row0 row R0 (py_index_Ok_In _ _ R)) as L.
  destruct (@py_index_in_range _ row (snd s)) as (c & C); [lia|].
  rewrite C. cbn [bind]. eauto.
Qed.

(** A loop whose steps can only raise [e] can only raise [e]. *)
Lemma foldM_outcome {A S} (e : Exn) (f : S -> A -> Result S) (l : list A)
    (s : S) :
  (forall s x, In x l -> (exists s', f s x = Ok s') \/ f s x = Raise e) ->
  (exists r, foldM f l s = Ok r) \/ foldM f l s = Raise e.
Proof.
  revert s; induction l as [|x l IH]; intros s Hstep; simpl; eauto.
  destruct (Hstep s x) as [(s' & ->)| ->]; simpl; auto.
  apply IH. intros; apply Hstep; simpl; auto.
Qed.

Lemma get_next_state_probabilities_outcome env s a :
  (exists om, get_next_state_probabilities env s a = Ok om) \/
  get_next_state_probabilities env s a = Raise IndexError.
Proof.
  unfold get_next_state_probabilities.
  destruct (is_wall_outcome env (fst s - 1, snd s)%Z) as [(w1 & ->)| ->];
    cbn [bind]; auto.
  destruct (is_wall_outcome env (fst s + 1, snd s)%Z) as [(w2 & ->)| ->];
    cbn [bind]; auto.
  destruct (is_wall_outcome env (fst s, snd s - 1)%Z) as [(w3 & ->)| ->];
    cbn [bind]; auto.
  destruct (is_wall_outcome env (fst s, snd s + 1)%Z) as [(w4 & ->)| ->];
    cbn [bind]; eauto.
Qed.

Lemma Maze_init_outcome env start gamma :
  (exists m, Maze_init env start gamma = Ok m) \/
  Maze_init env start gamma = Raise IndexError.
Proof.
  unfold Maze_init.
  assert (I : (exists d, init_states env = Ok d) \/
              init_states env = Raise IndexError).
  { unfold init_states. apply foldM_outcome. intros d row _.
    unfold add_row.
    destruct (py_index_outcome env 0) as [(row0 & ->)| ->]; cbn [bind]; auto.
    apply foldM_outcome. intros d' col _. unfold add_cell.
    destruct (is_wall_outcome env (row, col)) as [(w & ->)| ->]; cbn [bind];
      eauto. }
  destruct I as [(d & ->)| ->]; cbn [bind]; auto.
  match goal with
  | |- (exists m, bind (foldM ?f ?l ?a) _ = _) \/ _ =>
      destruct (@foldM_outcome _ _ IndexError f l a) as [(d' & ->)| ->]
  end; cbn [bind]; eauto.
  intros d' s _. unfold build_action_next_state_map.
  match goal with
  | |- (exists s', bind (foldM ?f ?l ?a) _ = _) \/ _ =>
      destruct (@foldM_outcome _ _ IndexError f l a) as [(am & ->)| ->]
  end; cbn [bind]; eauto.
  intros am a _.
  destruct (get_next_state_probabilities_outcome env s a) as [(om & ->)| ->];
    cbn [bind]; eauto.
Qed.

(** A grid the constructor accepts has no short row. *)
Lemma Maze_init_no_short_row env start gamma m :
  Maze_init env start gamma = Ok m -> no_short_row env = true.
Proof.
  intros Hm. apply no_short_row_spec. intros row0 row R0 Hin.
  destruct (Maze_init_states _ _ _ Hm) as (d0 & I).
  destruct (Z_le_gt_dec (len row0) 0) as [Hz|Hpos].
  { unfold len in *. lia. }
  apply In_nth_error in Hin. destruct Hin as (i & Hi).
  assert (Hlt : (i < length env)%nat).
  { apply nth_error_Some. congruence. }
  assert (R : py_index env (Z.of_nat i) = Ok row).
  { unfold py_index.
    destruct (Z.of_nat i <? 0)%Z eqn:E; [apply Z.ltb_lt in E; lia|].
    rewrite E, Nat2Z.id, Hi. reflexivity. }
  destruct (@init_states_total env d0 row0 (Z.of_nat i, len row0 - 1)%Z I R0)
    as (w & W); cbn [fst snd]; unfold len in *; try lia.
  unfold is_wall in W. cbn [fst snd] in W.
  destruct (Z.of_nat i <? 0)%Z eqn:E1; [apply Z.ltb_lt in E1; lia|].
  destruct (Z.of_nat i >=? len env)%Z eqn:E2;
    [rewrite Z.geb_leb in E2; apply Z.leb_le in E2; unfold len in *; lia|].
  destruct (len row0 - 1 <? 0)%Z eqn:E3;
    [apply Z.ltb_lt in E3; unfold len in *; lia|].
  unfold len in *. rewrite E3 in W.
  rewrite R0 in W. cbn [bind] in W.
  destruct (Z.of_nat (length row0) - 1 >=? Z.of_nat (length row0))%Z eqn:E4;
    [rewrite Z.geb_leb in E4; apply Z.leb_le in E4; lia|].
  rewrite R in W. cbn [bind] in W. bind_inv W.
  apply py_index_Ok_range in E; unfold len in *; lia.
Qed.

(** A grid with no short row is accepted. *)
Lemma Maze_init_total env start gamma :
  no_short_row env = true -> exists m, Maze_init env start gamma = Ok m.
Proof.
  intros F. unfold Maze_init.
  assert (I : exists d, init_states env = Ok d).
  { unfold init_states.
    match goal with
    | |- exists d, foldM ?f ?l ?a = Ok d =>
        destruct (@foldM_total _ _ (fun _ => True) f l a I) as (d & E & _)
    end; eauto.
    intros d row Hrow _. unfold add_row.
    apply In_py_range in Hrow.
    destruct (@py_index_in_range _ env 0) as (row0 & ->); [lia|].
    cbn [bind].
    match goal with
    | |- exists d, foldM ?f ?l ?a = Ok d /\ _ =>
        destruct (@foldM_total _ _ (fun _ => True) f l a I) as (d' & E & _)
    end; eauto.
    intros d' col _ _. unfold add_cell.
    destruct (@is_wall_total env (row, col) F) as (w & ->). cbn [bind].
    eauto. }
  destruct I as (d & ->). cbn [bind].
  match goal with
  | |- exists m, bind (foldM ?f ?l ?a) _ = _ =>
      destruct (@foldM_total _ _ (fun _ => True) f l a I) as (d' & -> & _)
  end; cbn [bind]; eauto.
  intros d' s _ _. unfold build_action_next_state_map.
  match goal with
  | |- exists s', bind (foldM ?f ?l ?a) _ = _ /\ _ =>
      destruct (@foldM_total _ _ (fun _ => True) f l a I) as (am & -> & _)
  end; cbn [bind]; eauto.
  intros am a _ _. unfold get_next_state_probabilities.
  destruct (@is_wall_total env (fst s - 1, snd s)%Z F) as (w1 & ->).
  destruct (@is_wall_total env (fst s + 1, snd s)%Z F) as (w2 & ->).
  destruct (@is_wall_total env (fst s, snd s - 1)%Z F) as (w3 & ->).
  destruct (@is_wall_total env (fst s, snd s + 1)%Z F) as (w4 & ->).
  cbn [bind]. eauto.
Qed.

Lemma Maze_init_accepts env start gamma :
  match Maze_init env start gamma with
  | Ok m => no_short_row env = true
  | Raise e => e = IndexError /\ no_short_row env = false
  | OutOfFuel => False
  end.
Proof.
  destruct (Maze_init env start gamma) as [m|e|] eqn:E.
  - eapply Maze_init_no_short_row; eauto.
  - destruct (Maze_init_outcome env start gamma) as [(m & E')|E'];
      rewrite E in E'; [discriminate|]. inversion E'; subst. split; auto.
    destruct (no_short_row env) eqn:F; auto.
    destruct (@Maze_init_total env start gamma F) as (m & E'').
    rewrite E in E''. discriminate.
  - destruct (Maze_init_outcome env start gamma) as [(m & E')|E'];
      rewrite E in E'; discriminate.
Qed.

(** X13. The constructor [Maze(environment, start_state, discount_factor)]
    succeeds exactly when no row of the grid is shorter than its first row
    (in particular on the empty grid, and whatever the start state and the
    discount factor are); otherwise it raises [IndexError]. *)
Theorem maze_constructor_accepts env start gamma :
  match Maze_init env start gamma with
  | Ok m => no_short_row env = true
  | Raise e => e = IndexError /\ no_short_row env = false
  | OutOfFuel => False
  end.
Proof. apply Maze_init_accepts. Qed.

(* ------------------------------------------------------------------ *)
(** ** Random mazes *)
















(* ------------------------------------------------------------------ *)
(** ** Policy iteration without evaluation rounds *)

Lemma py_range_nonpositive k : (k <= 0)%Z -> py_range k = [].
Proof.
  intros Hk. unfold py_range. replace (Z.to_nat k) with 0%nat by lia.
  reflexivity.
Qed.

Section MazeRounds.
Variables (env : Env) (start : State) (gamma : Q) (m : Maze).
Hypothesis Hm : Maze_init env start gamma = Ok m.

(** On a maze [policy_improvement] cannot raise when the utility table
    covers the states and the policy gives every state an action. *)
Lemma maze_policy_improvement_defined policy U :
  defined_on_states m U -> total_policy (Maze_as_mdp m) policy ->
  exists policy' changed,
    policy_improvement (Maze_as_mdp m) policy U = Ok (policy', changed).
Proof.
  intros DU TP. unfold policy_improvement.
  match goal with
  | |- exists p c, foldM ?f ?l ?a = Ok (p, c) =>
      destruct (@foldM_total _ _ (fun _ => True) f l a I) as ([p c] & E & _)
  end; eauto.
  intros [p c] s Hs _. cbn [states Maze_as_mdp] in Hs.
  destruct (maze_table_entry _ _ _ _ Hm Hs)
    as (am & resolve & T & _ & _ & _ & K & _).
  unfold dict_get at 1. cbn [states Maze_as_mdp]. rewrite T. cbn [bind].
  assert (exists acc, best_action_loop (Maze_as_mdp m) s U am = Ok acc)
    as ([mx best] & L).
  { unfold best_action_loop.
    match goal with
    | |- exists acc, foldM ?f ?l ?a = Ok acc =>
        destruct (@foldM_total _ _ (fun _ => True) f l a I) as (acc & E & _)
    end; eauto.
    intros [mx best] a _ _.
    destruct (@maze_expected_utility_defined env start gamma m Hm s a U Hs DU)
      as (v & ->).
    cbn [bind]. eauto. }
  rewrite L. cbn [bind].
  destruct (TP s Hs) as (a & Ga). unfold dict_get. rewrite Ga. cbn [bind].
  cbn [get_expected_utility_of].
  destruct (@maze_expected_utility_defined env start gamma m Hm s a U Hs DU)
    as (v & ->).
  cbn [bind]. destruct (improves mx v); eauto.
Qed.

(** Over the all-zero table every expected utility is zero. *)
Lemma maze_expected_utility_zero s a U v :
  In s (dict_keys (maze_states m)) ->
  (forall t, In t (dict_keys (maze_states m)) -> dict_get_opt U t = Some 0) ->
  get_expected_utility (Maze_as_mdp m) s a U = Ok v -> v == 0.
Proof.
  intros Hs Z E.
  assert (DU : defined_on_states m U) by (intros t Ht; eauto).
  destruct (@maze_expected_utility_value env start gamma m s a U Hm Hs DU)
    as (resolve & u1 & u2 & u3 & _ & V & A1 & A2 & A3 & F).
  rewrite F in E. inversion E; subst v.
  rewrite (Z _ (V _)) in A1. rewrite (Z _ (V _)) in A2.
  rewrite (Z _ (V _)) in A3.
  inversion A1; inversion A2; inversion A3; subst. lra.
Qed.

Lemma maze_pi_first_round k :
  (k <= 0)%Z ->
  exists st,
    pi_round (Maze_as_mdp m) k (pi_init (Maze_as_mdp m)) = Ok st /\
    pi_hasChanged st = false /\
    forall s, In s (dict_keys (maze_states m)) ->
      dict_get_opt (pi_current_utilities st) s = Some 0 /\
      dict_get_opt (pi_policy st) s = Some (Some UP) /\
      dict_get_opt (pi_all_iteration_utilities st) s = Some [0].
Proof.
  intros Hk. set (mdp := Maze_as_mdp m). set (st0 := pi_init mdp).
  destruct (Maze_init_inv _ _ _ Hm) as (_ & _ & _ & _ & N & _).
  assert (I0 : forall s, In s (dict_keys (maze_states m)) ->
            dict_get_opt (pi_current_utilities st0) s = Some 0 /\
            dict_get_opt (pi_policy st0) s = Some (Some UP) /\
            dict_get_opt (pi_all_iteration_utilities st0) s = Some [0]).
  { intros s Hs. apply pi_init_entries. exact Hs. }
  (* the evaluation: a copy of the table *)
  assert (exists cur ni, pe_copy mdp (pi_current_utilities st0) = Ok (cur, ni))
    as (cur & ni & C).
  { unfold pe_copy.
    match goal with
    | |- exists c n, foldM ?f ?l ?a = Ok (c, n) =>
        destruct (@foldM_total _ _ (fun _ => True) f l a I) as ([c n] & E & _)
    end; eauto.
    intros [c n] s Hs _. destruct (I0 s Hs) as (G & _).
    unfold dict_get. rewrite G. cbn [bind]. eauto. }
  assert (PE : policy_evaluation mdp (pi_policy st0) (pi_current_utilities st0)
                 k = Ok (cur, ni)).
  { rewrite policy_evaluation_unfold, C. cbn [bind].
    rewrite py_range_nonpositive by exact Hk. reflexivity. }
  destruct (pe_copy_spec _ _ C) as (Cin & _).
  assert (Zc : forall t, In t (dict_keys (maze_states m)) ->
            dict_get_opt cur t = Some 0).
  { intros t Ht. destruct (Cin t Ht) as (u & Gu & Gc & _).
    destruct (I0 t Ht) as (G & _). rewrite G in Gu. congruence. }
  assert (DU : defined_on_states m cur) by (intros t Ht; eauto).
  assert (TP : total_policy mdp (pi_policy st0)).
  { intros s Hs. exists UP. apply (I0 s Hs). }
  destruct (@maze_policy_improvement_defined (pi_policy st0) cur DU TP)
    as (policy' & changed & PI).
  destruct (policy_improvement_spec _ _ _ PI) as (Sp & Fl).
  assert (Same : forall s, In s (dict_keys (maze_states m)) ->
            dict_get_opt policy' s = dict_get_opt (pi_policy st0) s).
  { intros s Hs.
    destruct (Sp s Hs) as (a_old & v_old & a_new & v_new & Go & Eo & Gn & En
                           & _ & D & _).
    rewrite Gn, Go. destruct D as [->|Lt]; [reflexivity|].
    apply (@maze_expected_utility_zero s a_old cur v_old Hs Zc) in Eo.
    apply (@maze_expected_utility_zero s a_new cur v_new Hs Zc) in En.
    lra. }
  assert (Ch : changed = false) by (apply Fl; exact Same).
  (* the history *)
  assert (exists h,
            foldM (fun (h : History) state_position =>
                     l <- dict_get h state_position ;;
                     l' <- dict_get ni state_position ;;
                     Ok (dict_set h state_position (l ++ l')))
                  (dict_keys (states mdp)) (pi_all_iteration_utilities st0)
            = Ok h) as (h & H).
  { match goal with
    | |- exists h, foldM ?f ?l ?a = Ok h =>
        destruct (@foldM_total _ _ (fun h : History => defined_on_states m h)
                    f l a) as (h & E & _)
    end; eauto.
    - intros s Hs. destruct (I0 s Hs) as (_ & _ & G). eauto.
    - intros h s Hs Dh. destruct (Dh s Hs) as (l & Gl).
      destruct (Cin s Hs) as (_ & _ & _ & Gn).
      unfold dict_get. rewrite Gl, Gn. cbn [bind]. eexists.
      split; [reflexivity|]. apply defined_on_states_set, Dh. }
  assert (R : pi_round mdp k st0
              = Ok (mkPIState cur policy' h changed
                      (pi_num_iterations st0 + k)%Z)).
  { fold mdp in PI. unfold pi_round. rewrite PE. cbn [bind].
    rewrite PI. cbn [bind]. rewrite H. reflexivity. }
  eexists. split; [exact R|]. cbn [pi_hasChanged pi_current_utilities
                                 pi_policy pi_all_iteration_utilities].
  split; [exact Ch|]. intros s Hs. split; [apply Zc, Hs|]. split.
  - rewrite (Same s Hs). apply (I0 s Hs).
  - destruct (@pi_round_history mdp k st0 _ N R) as (_ & Hh).
    destruct (Hh s Hs) as (old & l' & Go & Gn & Ln).
    cbn [pi_all_iteration_utilities] in Gn. rewrite Gn.
    destruct (I0 s Hs) as (_ & _ & G). rewrite G in Go.
    inversion Go; subst old.
    destruct l'; [reflexivity|]. simpl in Ln. lia.
Qed.
End MazeRounds.

Lemma maze_policy_iteration_without_evaluation env start gamma m k fuel :
  Maze_init env start gamma = Ok m ->
  In start (dict_keys (maze_states m)) ->
  (k <= 0)%Z ->
  exists res,
    policy_iteration (S fuel) (Maze_as_mdp m) k = Ok res /\
    num_iterations res = 1%Z /\
    forall s, In s (dict_keys (maze_states m)) ->
      dict_get_opt (converged_utilities res) s = Some 0 /\
      dict_get_opt (optimal_policy res) s = Some (Some UP) /\
      dict_get_opt (iteration_utilities res) s = Some [0].
Proof.
  intros Hm Hs Hk.
  destruct (@maze_pi_first_round env start gamma m Hm k Hk)
    as (st & R & Ch & F).
  destruct (Maze_init_inv _ _ _ Hm) as (_ & Hst & _).
  exists (mkSolverResult (pi_current_utilities st) (pi_policy st) 1
            (pi_all_iteration_utilities st)).
  split; [|split; [reflexivity|exact F]].
  unfold policy_iteration. cbn [pi_loop].
  rewrite pi_init_hasChanged, R. cbn [bind].
  assert (L : pi_loop fuel (Maze_as_mdp m) k st = Ok st).
  { destruct fuel; cbn [pi_loop]; rewrite Ch; reflexivity. }
  rewrite L. cbn [bind]. unfold history_length.
  cbn [start_state Maze_as_mdp]. rewrite Hst.
  destruct (F start Hs) as (_ & _ & ->). reflexivity.
Qed.

(** X16. With [num_policy_evaluation <= 0], [policy_iteration] on a
    constructed maze with a valid start state does no evaluation at all: it
    returns after one pass of its loop, whatever the rewards and the
    discount factor, with utility 0 and action UP for every state, the
    history [0] and [num_iterations] 1. *)
Theorem policy_iteration_without_evaluation env start gamma m k fuel :
  Maze_init env start gamma = Ok m ->
  In start (dict_keys (maze_states m)) ->
  (k <= 0)%Z ->
  exists res,
    policy_iteration (S fuel) (Maze_as_mdp m) k = Ok res /\
    num_iterations res = 1%Z /\
    forall s, In s (dict_keys (maze_states m)) ->
      dict_get_opt (converged_utilities res) s = Some 0 /\
      dict_get_opt (optimal_policy res) s = Some (Some UP) /\
      dict_get_opt (iteration_utilities res) s = Some [0].
Proof. apply maze_policy_iteration_without_evaluation. Qed.

Lemma policy_iteration_without_evaluation_witness :
  exists m,
    Maze_init [[Some 1; None]; [Some (-1); Some (-4 # 100)]] (0, 0)%Z (1 # 2)
    = Ok m /\
    exists res,
      policy_iteration 1 (Maze_as_mdp m) 0 = Ok res /\
      num_iterations res = 1%Z /\
      forall s, In s (dict_keys (maze_states m)) ->
        dict_get_opt (converged_utilities res) s = Some 0 /\
        dict_get_opt (optimal_policy res) s = Some (Some UP) /\
        dict_get_opt (iteration_utilities res) s = Some [0].
Proof.
  eexists. split; [vm_compute; reflexivity|].
  apply (@policy_iteration_without_evaluation
           [[Some 1; None]; [Some (-1); Some (-4 # 100)]] (0, 0)%Z (1 # 2)).
  - vm_compute; reflexivity.
  - simpl; auto.
  - lia.
Defined.

(* ------------------------------------------------------------------ *)
(** ** Binary64: the order of floats *)

Lemma compare_cont_Eq (p q : positive) :
  Pos.compare_cont Eq p q = (p ?= q)%positive.
Proof. rewrite Pos.compare_cont_spec. destruct (p ?= q)%positive; auto. Qed.

Lemma SFcompare_Lt_trans x y z :
  SFcompare x y = Some Lt -> SFcompare y z = Some Lt ->
  SFcompare x z = Some Lt.
Proof.
  destruct x as [sx|sx| |sx mx ex], y as [sy|sy| |sy my ey],
           z as [sz|sz| |sz mz ez];
    try destruct sx; try destruct sy; try destruct sz;
    cbn [SFcompare]; try discriminate; try reflexivity; intros H1 H2.
  all: destruct (Z.compare_spec ex ey) as [E1|E1|E1];
       destruct (Z.compare_spec ey ez) as [E2|E2|E2];
       try discriminate; subst;
       try rewrite Z.compare_refl;
       try (rewrite (proj2 (Z.compare_lt_iff _ _)) by lia);
       try (rewrite (proj2 (Z.compare_gt_iff _ _)) by lia);
       try reflexivity.
  all: rewrite ?compare_cont_Eq in *; revert H1 H2;
       destruct (Pos.compare_spec mx my), (Pos.compare_spec my mz),
                (Pos.compare_spec mx mz);
       cbn [CompOpp]; intros; try discriminate; try reflexivity;
       subst; lia.
Qed.

(** [<] on floats is transitive. *)
Lemma ltb_trans (a b c : float) :
  (a <? b)%float = true -> (b <? c)%float = true -> (a <? c)%float = true.
Proof.
  rewrite !ltb_spec. unfold SFltb.
  destruct (SFcompare (Prim2SF a) (Prim2SF b)) as [[]|] eqn:E1;
    try discriminate.
  destruct (SFcompare (Prim2SF b) (Prim2SF c)) as [[]|] eqn:E2;
    try discriminate.
  rewrite (SFcompare_Lt_trans _ _ _ E1 E2). reflexivity.
Qed.


(** [<] is irreflexive. *)
Lemma ltb_irrefl (x : float) : (x <? x)%float = false.
Proof.
  rewrite ltb_spec. unfold SFltb.
  destruct (Prim2SF x) as [s|s| |s m e]; try destruct s; cbn [SFcompare];
    try reflexivity.
  - rewrite Z.compare_refl, compare_cont_Eq, Pos.compare_refl.
    reflexivity.
  - rewrite Z.compare_refl, compare_cont_Eq, Pos.compare_refl.
    reflexivity.
Qed.

(* ------------------------------------------------------------------ *)
(** ** Binary64: the arg-max loop, the sweep and the solvers *)

Module Binary64Facts.
Import Binary64.

Section ArgMax.
Variables (mdp : MarkovDecisionProcess) (s : State) (U : Utilities).

Let step (acc : float * option MazeActions) (action : MazeActions) :=
  let (max_expected_utility, best_action) := acc in
  expected_utility <- get_expected_utility mdp s action U ;;
  Ok (if gt expected_utility max_expected_utility
      then (expected_utility, Some action)
      else (max_expected_utility, best_action)).


End ArgMax.


Section Sweep.
Variables (mdp : MarkovDecisionProcess) (cur : Utilities).

Let sweep_step (acc : Utilities * Policy * float) (state : State) :=
  let '(new_utilities, optimal_policy, max_utility_difference) := acc in
  '(updated_utility, best_action) <- bellman_equation mdp state cur ;;
  let new_utilities := dict_set new_utilities state updated_utility in
  let optimal_policy := dict_set optimal_policy state best_action in
  nu <- dict_get new_utilities state ;;
  cu <- dict_get cur state ;;
  Ok (new_utilities, optimal_policy,
      py_max max_utility_difference (abs (nu - cu))%float).

Lemma b64_sweep_step_inv new pol delta s acc' :
  sweep_step (new, pol, delta) s = Ok acc' ->
  exists v a cu,
    bellman_equation mdp s cur = Ok (v, a) /\
    dict_get_opt cur s = Some cu /\
    acc' = (dict_set new s v, dict_set pol s a,
            py_max delta (abs (v - cu))%float).
Proof.
  unfold sweep_step. intros E. bind_inv E. destruct x as [v a].
  rewrite dict_get_set_same in E. cbn [bind] in E.
  bind_inv E. apply dict_get_Ok in E1. inversion E; subst.
  exists v, a, x. auto.
Qed.

End Sweep.



Lemma b64_value_iteration_inv fuel mdp max_error res :
  value_iteration fuel mdp max_error = Ok res ->
  exists st,
    vi_loop fuel mdp max_error (vi_init mdp) = Ok st /\
    converged_utilities res = vi_current_utilities st /\
    optimal_policy res = vi_optimal_policy st /\
    iteration_utilities res = vi_all_iteration_utilities st /\
    history_length mdp (vi_all_iteration_utilities st)
      = Ok (num_iterations res).
Proof.
  unfold value_iteration. intros E. bind_inv E. bind_inv E.
  inversion E; subst; simpl. eauto 10.
Qed.







End Binary64Facts.

(* ------------------------------------------------------------------ *)
(** ** Binary64: the sweep in terms of the sums it computes *)

Module Binary64Sweeps.
Import Binary64.




Section Residual.
Variables (mdp : MarkovDecisionProcess) (cur : Utilities).

Let sweep_step (acc : Utilities * Policy * float) (state : State) :=
  let '(new_utilities, optimal_policy, max_utility_difference) := acc in
  '(updated_utility, best_action) <- bellman_equation mdp state cur ;;
  let new_utilities := dict_set new_utilities state updated_utility in
  let optimal_policy := dict_set optimal_policy state best_action in
  nu <- dict_get new_utilities state ;;
  cu <- dict_get cur state ;;
  Ok (new_utilities, optimal_policy,
      py_max max_utility_difference (abs (nu - cu))%float).

(** The residual accumulated by the loop: no visited state has a greater
    difference, it never decreases, and it is the initial value or the
    difference of a visited state. *)
Lemma b64_sweep_fold_residual l new pol delta new' pol' delta' :
  foldM sweep_step l (new, pol, delta) = Ok (new', pol', delta') ->
  (delta' = delta \/ gt delta' delta = true) /\
  (forall s, In s l ->
     exists v a cu, bellman_equation mdp s cur = Ok (v, a) /\
                    dict_get_opt cur s = Some cu /\
                    gt (abs (v - cu)) delta' = false) /\
  (delta' = delta \/
   exists s v a cu, In s l /\ bellman_equation mdp s cur = Ok (v, a) /\
                    dict_get_opt cur s = Some cu /\
                    delta' = abs (v - cu)).
Proof.
  revert new pol delta. induction l as [|s l IH]; intros new pol delta E.
  - simpl in E. inversion E; subst. split; [auto|].
    split; [intros s []|auto].
  - cbn [foldM] in E. bind_inv E.
    apply Binary64Facts.b64_sweep_step_inv in E0.
    destruct E0 as (v & a & cu & B & C & ->).
    destruct (IH _ _ _ E) as (I1 & I2 & I3). clear IH E.
    unfold py_max, gt in *.
    destruct (delta <? abs (v - cu))%float eqn:X.
    + split; [|split].
      * right. destruct I1 as [->|I1]; auto. eapply ltb_trans; eauto.
      * intros t [<-|Ht]; auto. exists v, a, cu. repeat split; auto.
        destruct I1 as [->|I1]; [apply ltb_irrefl|].
        destruct (delta' <? abs (v - cu))%float eqn:C'; auto.
        pose proof (ltb_trans I1 C') as F. rewrite ltb_irrefl in F.
        discriminate.
      * right. destruct I3 as [->|(t & v' & a' & cu' & Ht & ?)].
        -- exists s, v, a, cu. simpl; auto.
        -- exists t, v', a', cu'. simpl; tauto.
    + split; [exact I1|]. split.
      * intros t [<-|Ht]; auto. exists v, a, cu. repeat split; auto.
        destruct I1 as [->|I1]; auto.
        destruct (delta' <? abs (v - cu))%float eqn:C'; auto.
        rewrite (ltb_trans I1 C') in X. discriminate.
      * destruct I3 as [->|(t & v' & a' & cu' & Ht & ?)]; auto.
        right. exists t, v', a', cu'. simpl; tauto.
Qed.

End Residual.




Lemma b64_vi_loop_stops_at_first_small_residual mdp max_error threshold :
  stopping_threshold mdp max_error = Ok threshold ->
  forall fuel st st',
    vi_loop fuel mdp max_error st = Ok st' <->
    exists n delta,
      (n < fuel)%nat /\
      vi_iterate n mdp st = Ok (st', delta) /\
      lt delta threshold = true /\
      forall k, (k < n)%nat ->
        exists stk dk, vi_iterate k mdp st = Ok (stk, dk) /\
                       lt dk threshold = false.
Proof.
  intros T. induction fuel as [|fuel IH]; intros st st'.
  - simpl. split; [discriminate|]. intros (n & d & Hn & _). lia.
  - cbn [vi_loop]. rewrite T. split.
    + intros E. bind_inv E. destruct x as [st1 d1]. cbn [bind] in E.
      destruct (lt d1 threshold) eqn:L.
      * inversion E; subst.
        exists 0%nat, d1. repeat split; auto; [lia|]. intros k Hk; lia.
      * apply IH in E.
        destruct E as (n & d & Hn & I & Hd & Hk).
        exists (S n), d. split; [lia|]. cbn [vi_iterate]. rewrite E0.
        cbn [bind]. repeat split; auto.
        intros [|k] Hlt.
        -- exists st1, d1. split; auto.
        -- cbn [vi_iterate]. rewrite E0. cbn [bind]. apply Hk. lia.
    + intros (n & d & Hn & I & Hd & Hk). destruct n as [|n].
      * cbn [vi_iterate] in I. rewrite I. cbn [bind].
        rewrite Hd. reflexivity.
      * destruct (Hk 0%nat) as (st1 & d1 & I1 & N1); [lia|].
        cbn [vi_iterate] in I1, I. rewrite I1 in *. cbn [bind] in *.
        rewrite N1.
        apply IH. exists n, d. split; [lia|]. repeat split; auto.
        intros k Hlt. destruct (Hk (S k)) as (stk & dk & Ik & Nk); [lia|].
        cbn [vi_iterate] in Ik. rewrite I1 in Ik. cbn [bind] in Ik. eauto.
Qed.

End Binary64Sweeps.

(* ------------------------------------------------------------------ *)
(** ** Binary64: the table built by the constructor *)

Module Binary64Maze.
Import Binary64.













End Binary64Maze.

(* ------------------------------------------------------------------ *)
(** ** Binary64: the sweeps of value iteration *)

Set Warnings "-inexact-float".



(* ------------------------------------------------------------------ *)
(** ** Binary64: the policy returned by value iteration *)



(* ------------------------------------------------------------------ *)
(** ** Binary64: policies with the None placeholder *)



(* ------------------------------------------------------------------ *)
(** ** Binary64: the expected utility against the sum over all actions *)




(* ------------------------------------------------------------------ *)
(** ** Binary64: a bound that is not positive *)

(** An absolute value is below positive numbers only. *)
Lemma ltb_abs_positive (x t : float) :
  (abs x <? t)%float = true -> (0 <? t)%float = true.
Proof.
  rewrite !ltb_spec, abs_spec.
  change (Prim2SF 0) with (S754_zero false).
  destruct (Prim2SF x) as [sx|sx| |sx mx ex],
           (Prim2SF t) as [st|st| |st mt et];
    try destruct st; cbn; try discriminate; try reflexivity.
Qed.

Lemma b64_vi_iterate_last_sweep mdp :
  forall n st st' delta,
    Binary64.vi_iterate n mdp st = Ok (st', delta) ->
    exists st0, Binary64.vi_sweep mdp st0 = Ok (st', delta).
Proof.
  induction n as [|n IH]; intros st st' delta E; cbn [Binary64.vi_iterate] in E.
  - eauto.
  - bind_inv E. destruct x as [st1 d1]. eapply IH; eauto.
Qed.

(** The residual of a sweep is 0 or an absolute value. *)
Lemma b64_vi_sweep_residual mdp st st' delta :
  Binary64.vi_sweep mdp st = Ok (st', delta) ->
  delta = 0%float \/ exists x, delta = abs x.
Proof.
  unfold Binary64.vi_sweep. intros E. bind_inv E. rename x into hist.
  bind_inv E. destruct x as [[new pol] d]. inversion E; subst; clear E.
  destruct (Binary64Sweeps.b64_sweep_fold_residual _ _ _ _ _ _ E1)
    as (_ & _ & [->|(s & v & a & cu & _ & _ & _ & ->)]); eauto.
Qed.

Lemma b64_no_result_below_a_nonpositive_bound mdp max_error threshold :
  Binary64.stopping_threshold mdp max_error = Ok threshold ->
  Binary64.gt threshold 0 = false ->
  forall fuel res, Binary64.value_iteration fuel mdp max_error <> Ok res.
Proof.
  intros T Neg fuel res E.
  apply Binary64Facts.b64_value_iteration_inv in E.
  destruct E as (st & L & _).
  apply (Binary64Sweeps.b64_vi_loop_stops_at_first_small_residual _ _ T) in L.
  destruct L as (n & d & _ & I & Small & _).
  apply b64_vi_iterate_last_sweep in I. destruct I as (st0 & Sw).
  unfold Binary64.gt in Neg. unfold Binary64.lt in Small.
  destruct (b64_vi_sweep_residual _ _ Sw) as [->|(x & ->)].
  - congruence.
  - apply ltb_abs_positive in Small. congruence.
Qed.

(** X17. When the bound max_error * (1 - gamma) / gamma computed in floating
    point is not greater than 0 (it is zero, negative or nan) no run of
    [value_iteration] returns a result, since a residual is 0 or an
    absolute value.  This happens for a discount factor >= 1, and also by
    underflow for a discount factor in (0, 1) and a positive [max_error]:
    5e-324 * (1 - 0.5) / 0.5 is 0.0. *)
Theorem value_iteration_needs_a_positive_bound mdp max_error threshold :
  Binary64.stopping_threshold mdp max_error = Ok threshold ->
  Binary64.gt threshold 0 = false ->
  forall fuel res, Binary64.value_iteration fuel mdp max_error <> Ok res.
Proof. apply b64_no_result_below_a_nonpositive_bound. Qed.

Lemma value_iteration_needs_a_positive_bound_witness :
  exists m,
    Binary64.Maze_init [[Some 1%float]] (0, 0)%Z 0.5%float = Ok m /\
    Binary64.gt 5e-324 0 = true /\
    Binary64.stopping_threshold (Binary64.Maze_as_mdp m) 5e-324%float
    = Ok 0%float /\
    forall fuel res,
      Binary64.value_iteration fuel (Binary64.Maze_as_mdp m) 5e-324%float
      <> Ok res.
Proof.
  eexists. split; [vm_compute; reflexivity|].
  split; [vm_compute; reflexivity|].
  split; [vm_compute; reflexivity|].
  apply (@value_iteration_needs_a_positive_bound _ 5e-324%float 0%float).
  - vm_compute; reflexivity.
  - vm_compute; reflexivity.
Defined.
